(** * generation_cartes.py: coastal seeding, the Gibraltar wall and the
    capture analysis, embedded in Rocq.

    The script works on numpy arrays of IEEE-754 numbers.  They are
    modelled with the kernel's binary64 floats ([PrimFloat.float]), so that
    NaN, signed zeros and the comparisons behave as they do in numpy; a
    float32 is held as the binary64 of the same value.  The times of the
    store are datetime64 values, signed 64-bit integers in [Z].  Arrays are
    lists, two-dimensional arrays are lists of rows.  A Python exception
    ([IndexError] of a read out of range, [ValueError] of
    [np.random.choice] or of folium, [TypeError] of [float]) is [None] in
    the option monad.  [captured_ids], a Python [set] of integers, is a
    [gset nat]. *)

From Stdlib Require Import Floats ZArith.
From Stdlib Require Uint63.
From stdpp Require Import base option list sorting gmap fin_sets.

#[local] Set Warnings "-inexact-float,-clear-no-such-hyp".
#[local] Open Scope float_scope.

(** ** 2. Simulation: the boundary kernel *)

(** The fields of a Parcels particle that the kernels of the script touch. *)
Record Particle := mkParticle { lon : float; lat : float; depth : float }.

(** [GibraltarWall(particle, fieldset, time)]: a particle west of 5.8°W is
    put back on the meridian.  The kernel reads neither [fieldset] nor
    [time]. *)
Definition GibraltarWall {FS : Type} (particle : Particle) (fieldset : FS)
    (time : float) : Particle :=
  if lon particle <? -5.8
  then {| lon := -5.8; lat := lat particle; depth := depth particle |}
  else particle.


(** ** Creation du masque cotier *)

(** One cell of [mask_land]:
    [np.isnan(uo_sample) | (uo_sample > 1e10) | (uo_sample == 0)]. *)
Definition land_cell (uo : float) : bool :=
  is_nan uo || (1e10 <? uo) || (uo =? 0).

(** [mask_land]: numpy applies the three tests and the two [|] cell by
    cell over the two-dimensional sample. *)
Definition mask_land (uo_sample : list (list float)) : list (list bool) :=
  fmap (M:=list) land_cell <$> uo_sample.

(** [ndimage.generate_binary_structure(2, 2)]: the full 3x3 neighbourhood. *)
Definition generate_binary_structure_2_2 : list (list bool) :=
  replicate 3 (replicate 3 true).

(** A cell of a mask read at signed coordinates; outside the array the
    dilation sees [border_value = 0]. *)
Definition cell_or_border (m : list (list bool)) (i j : Z) : bool :=
  if ((0 <=? i) && (0 <=? j))%Z
  then default false (m !! Z.to_nat i ≫= (.!! Z.to_nat j))
  else false.

(** One pass of a binary dilation by a 3x3 structure centred on its middle
    cell: a cell is set when some set cell [(a, b)] of the structure lands
    on it from a set cell of the input. *)
Definition dilate_cell (structure m : list (list bool)) (i j : nat) : bool :=
  existsb (λ a, existsb (λ b,
      default false (structure !! a ≫= (.!! b))
      && cell_or_border m (Z.of_nat i + 1 - Z.of_nat a) (Z.of_nat j + 1 - Z.of_nat b))
    (seq 0 3)) (seq 0 3).

Definition dilate (structure m : list (list bool)) : list (list bool) :=
  imap (λ i row, imap (λ j _, dilate_cell structure m i j) row) m.

(** [ndimage.binary_dilation(input, structure=..., iterations=n)] for
    [n >= 1]: the dilation repeated [n] times. *)
Definition binary_dilation (input structure : list (list bool))
    (iterations : nat) : list (list bool) :=
  Nat.iter iterations (dilate structure) input.

Definition mask_land_dilated (uo_sample : list (list float)) : list (list bool) :=
  binary_dilation (mask_land uo_sample) generate_binary_structure_2_2 4.

(** [mask_coastal = mask_land_dilated & (~mask_land)], cell by cell. *)
Definition mask_coastal (uo_sample : list (list float)) : list (list bool) :=
  zip_with (zip_with (λ d l, d && negb l))
    (mask_land_dilated uo_sample) (mask_land uo_sample).

(** ** Tirage des particules *)

(** [np.arange(n)]. *)
Definition arange (n : nat) : list nat := seq 0 n.

(** Sampling without replacement.  The state of numpy's generator is the
    list [rnd] of its raw draws: each draw picks, modulo the size of what
    is left of the pool, the next element and removes it. *)
Fixpoint draw (rnd : list nat) (pool : list nat) (size : nat) : list nat :=
  match size with
  | O => []
  | S size' =>
      match pool !! (default 0 (head rnd) `mod` length pool)%nat with
      | Some x =>
          x :: draw (tail rnd)
                 (delete (default 0 (head rnd) `mod` length pool)%nat pool) size'
      | None => []
      end
  end.

(** [np.random.choice(a, size, replace=False)] for an integer [a]: a sample
    of [np.arange(a)]; numpy raises [ValueError] when the sample is larger
    than the population. *)
Definition random_choice (rnd : list nat) (a size : nat) : option (list nat) :=
  if decide (size ≤ a)%nat then Some (draw rnd (arange a) size) else None.

(** [indices = np.random.choice(len(valid_y), NB_PARTICLES, replace=False)
       if len(valid_y) > NB_PARTICLES else np.arange(len(valid_y))];
    the test [len(valid_y) > NB_PARTICLES] reads [NB_PARTICLES < len_valid_y]. *)
Definition indices (rnd : list nat) (len_valid_y NB_PARTICLES : nat) :
    option (list nat) :=
  if decide (NB_PARTICLES < len_valid_y)%nat
  then random_choice rnd len_valid_y NB_PARTICLES
  else Some (arange len_valid_y).

(** ** 3. Analyse *)

(** [AMP_BOX], a dictionary with four fixed keys. *)
Record Box := mkBox
  { lon_min : float; lon_max : float; lat_min : float; lat_max : float }.

Definition AMP_BOX : Box :=
  {| lon_min := 4.2; lon_max := 5.2; lat_min := 42.5; lat_max := 43.2 |}.

(** *** float32 positions *)

(** [lon] and [lat] are float32 columns.  numpy compares a float32 array
    with a Python float in float32: the Python float is first rounded to
    the nearest float32, ties to even, with 24 bits of precision and the
    exponent range of float32. *)
Definition round32 (sf : spec_float) : spec_float :=
  match sf with
  | S754_finite s m e => binary_round 24 128 s m e
  | _ => sf
  end.

(** [np.float32(x)] of a Python float [x], held in binary64.  The rounded
    mantissa has at most 24 bits, so [SF2Prim] converts it exactly. *)
Definition to_f32 (x : float) : float := SF2Prim (round32 (Prim2SF x)).

(** *** datetime64 times *)

(** [xr.open_zarr] decodes [time] to datetime64[ns] (to timedelta64[ns]
    when the store gives no origin, with the same arithmetic): a signed
    64-bit count of nanoseconds whose least value stands for NaT, "not a
    time", which is what an observation that was never written reads
    as. *)
Definition NaT : Z := (- 2 ^ 63)%Z.

(** A signed 64-bit integer after wrap-around. *)
Definition wrap64 (z : Z) : Z := ((z + 2 ^ 63) `mod` 2 ^ 64 - 2 ^ 63)%Z.

(** A signed 64-bit integer as a double, correctly rounded. *)
Definition f64_of_int64 (z : Z) : float :=
  if (0 <=? z)%Z then of_uint63 (Uint63.of_Z z)
  else - of_uint63 (Uint63.of_Z (- z)).

(** Neither an infinity nor NaN. *)
Definition is_finite (x : float) : bool :=
  match Prim2SF x with
  | S754_zero _ | S754_finite _ _ _ => true
  | _ => false
  end.

(** The cast of a finite double to a signed 64-bit integer: the fraction
    is dropped; out of range the cast gives the least value. *)
Definition int64_of_f64 (x : float) : Z :=
  match Prim2SF x with
  | S754_finite s m e =>
      let a := (if (0 <=? e)%Z then Z.pos m * 2 ^ e else Z.pos m / 2 ^ (- e))%Z in
      let z := if s then (- a)%Z else a in
      if ((- 2 ^ 63 <=? z) && (z <? 2 ^ 63))%Z then z else NaT
  | _ => 0%Z
  end.

(** [a - b] on datetime64: a timedelta64, NaT as soon as an operand is. *)
Definition td_sub (a b : Z) : Z :=
  if bool_decide (a = NaT ∨ b = NaT) then NaT else wrap64 (a - b).

(** [a / d] for a timedelta64 [a] and a float [d]: again a timedelta64,
    the quotient of the doubles cast back to an integer; NaT stays NaT and
    a quotient that is not finite gives NaT. *)
Definition td_div (a : Z) (d : float) : Z :=
  if bool_decide (a = NaT) then NaT
  else let r := f64_of_int64 a / d in
       if is_finite r then int64_of_f64 r else NaT.

(** [float(td)] of a timedelta64 scalar: the float of its integer; on NaT
    the scalar converts to [None] and [float] raises [TypeError]. *)
Definition py_float (td : Z) : option float :=
  if bool_decide (td = NaT) then None else Some (f64_of_int64 td).

(** One observation of the zarr store: its time and its position. *)
Record Obs := mkObs { obs_time : Z; obs_lon : float; obs_lat : float }.

(** The store opened by [xr.open_zarr]: one row per trajectory, one
    observation per output step.  Its variables [lon], [lat] and [time]
    share the dimensions (trajectory, obs), hence one shape. *)
Definition Dataset := list (list Obs).

Definition lon_traj (ds : Dataset) : list (list float) := fmap (M:=list) obs_lon <$> ds.
Definition lat_traj (ds : Dataset) : list (list float) := fmap (M:=list) obs_lat <$> ds.
Definition time_vals (ds : Dataset) : list (list Z) := fmap (M:=list) obs_time <$> ds.

(** [a[i, j]]; [None] is [IndexError]. *)
Definition index2 {A : Type} (a : list (list A)) (i j : nat) : option A :=
  a !! i ≫= (.!! j).

(** [a[:, t]]. *)
Definition column {A : Type} (a : list (list A)) (t : nat) : option (list A) :=
  mapM (.!! t) a.

(** [a.shape] of a two-dimensional array. *)
Definition shape {A : Type} (a : list (list A)) : nat * nat :=
  (length a, length (default [] (head a))).

(** [days_traj = ((time_vals - time_vals[0, 0]) / 1e9) / 86400.0]: an
    array of timedelta64 whose integers count whole seconds after the
    first division and whole days after the second. *)
Definition days_traj (time_vals : list (list Z)) : option (list (list Z)) :=
  t00 ← index2 time_vals 0 0;
  Some (fmap (M:=list) (λ x, td_div (td_div (td_sub x t00) 1e9) 86400)
          <$> time_vals).

(** [float(days_traj[0, t])]; [None] is the [IndexError] of the read or
    the [TypeError] of [float] on NaT. *)
Definition day_of (days : list (list Z)) (t : nat) : option float :=
  index2 days 0 t ≫= py_float.

(** [np.where(b)[0]] of a one-dimensional boolean array: the positions of
    its true entries, in increasing order. *)
Definition where1 (b : list bool) : list nat :=
  filter (λ i, b !! i = Some true) (seq 0 (length b)).

(** The membership test of one particle, [>=] and [<=] as the script
    writes them, each bound a Python float compared with a float32
    coordinate. *)
Definition inside (box : Box) (x y : float) : bool :=
  (to_f32 (lon_min box) <=? x) && (x <=? to_f32 (lon_max box))
  && (to_f32 (lat_min box) <=? y) && (y <=? to_f32 (lat_max box)).

(** [in_box] of one step, from the two columns. *)
Definition in_box (box : Box) (lons lats : list float) : list bool :=
  zip_with (inside box) lons lats.

(** The three accumulators of the loop. *)
Record Analysis := mkAnalysis
  { captured_ids : gset nat; curve : list nat; t_axis : list float }.

Definition analysis_init : Analysis :=
  {| captured_ids := ∅; curve := []; t_axis := [] |}.

(** How one pass through the loop body ends: it falls through to the next
    step, or it leaves the loop by [break]. *)
Inductive flow := Next (st : Analysis) | Break (st : Analysis).

(** The body of [for t in range(n_steps)], on the three arrays. *)
Definition body (box : Box) (lons lats : list (list float))
    (days : list (list Z)) (t : nat) (st : Analysis) : option flow :=
  day ← day_of days t;
  if is_nan day then Some (Break st)
  else
    ids ← (if 30 <=? day
           then xs ← column lons t;
                ys ← column lats t;
                Some (captured_ids st ∪ list_to_set (where1 (in_box box xs ys)))
           else Some (captured_ids st));
    Some (Next {| captured_ids := ids;
                  curve := curve st ++ [size ids];
                  t_axis := t_axis st ++ [day] |}).

(** A [for] loop over the steps [ts] whose body may [break]. *)
Fixpoint for_range (f : nat → Analysis → option flow) (ts : list nat)
    (st : Analysis) : option Analysis :=
  match ts with
  | [] => Some st
  | t :: ts' =>
      match f t st with
      | Some (Next st') => for_range f ts' st'
      | Some (Break st') => Some st'
      | None => None
      end
  end.

(** The loop run over the first [k] steps only. *)
Definition run (box : Box) (ds : Dataset) (k : nat) : option Analysis :=
  days ← days_traj (time_vals ds);
  for_range (body box (lon_traj ds) (lat_traj ds) days) (seq 0 k) analysis_init.

(** Section 3 of the script: the loop over [range(n_steps)], with
    [n_part, n_steps = lon_traj.shape]. *)
Definition analyse (box : Box) (ds : Dataset) : option Analysis :=
  run box ds (shape (lon_traj ds)).2.

(** The day of step [t] as the loop reads it, [float(days_traj[0, t])]. *)
Definition day_at (ds : Dataset) (t : nat) : option float :=
  days ← days_traj (time_vals ds); day_of days t.

(** The cumulative curve handed to the plot: [t_axis] against [curve]. *)
Definition cumulative_curve (r : Analysis) : list (float * nat) :=
  zip (t_axis r) (curve r).

(** A store is rectangular when every trajectory has as many observations
    as the first one, as every numpy array is. *)
Definition rectangular (ds : Dataset) : Prop :=
  Forall (λ row, length row = (shape ds).2) ds.

(** The cells [(a, b)] within [n] king moves of [(i, j)]: at most [n] rows
    and [n] columns away. *)
Definition within (n i j a b : nat) : Prop :=
  (a ≤ i + n ∧ i ≤ a + n ∧ b ≤ j + n ∧ j ≤ b + n)%nat.

(** ** Points de depart *)

(** The true cells of a two-dimensional boolean array as (row, column)
    pairs in row-major order, the rows counted from [i]. *)
Fixpoint true_cells (i : nat) (m : list (list bool)) : list (nat * nat) :=
  match m with
  | [] => []
  | row :: m' => ((λ j, (i, j)) <$> where1 row) ++ true_cells (S i) m'
  end.

(** [np.where(m)] of a two-dimensional array: the rows and the columns of
    its true cells, as two arrays of one length. *)
Definition where2 (m : list (list bool)) : list nat * list nat :=
  ((true_cells 0 m).*1, (true_cells 0 m).*2).

(** [a[idx]] for a list of indices [idx]; [None] is [IndexError]. *)
Definition take_indices {A : Type} (a : list A) (idx : list nat) :
    option (list A) :=
  mapM (a !!.) idx.

(** The comprehension
    [[i for i in ixs if lons_array[valid_x[i]] > -5.5]]. *)
Fixpoint safe_among (lons_array : list float) (valid_x : list nat)
    (ixs : list nat) : option (list nat) :=
  match ixs with
  | [] => Some []
  | i :: ixs' =>
      x ← valid_x !! i;
      lo ← lons_array !! x;
      rest ← safe_among lons_array valid_x ixs';
      Some (if -5.5 <? lo then i :: rest else rest)
  end.

(** [safe_indices], the comprehension over [range(len(valid_x))]. *)
Definition safe_indices (lons_array : list float) (valid_x : list nat) :
    option (list nat) :=
  safe_among lons_array valid_x (seq 0 (length valid_x)).

(** [valid_y, valid_x] as they stand after the filter: the coastal cells
    whose longitude is above -5.5. *)
Definition coastal_candidates (lons_array : list float)
    (uo_sample : list (list float)) : option (list nat * list nat) :=
  let valid_y := (where2 (mask_coastal uo_sample)).1 in
  let valid_x := (where2 (mask_coastal uo_sample)).2 in
  safe ← safe_indices lons_array valid_x;
  valid_y' ← take_indices valid_y safe;
  valid_x' ← take_indices valid_x safe;
  Some (valid_y', valid_x').

(** The three arrays handed to [ParticleSet.from_list]. *)
Record Seeds := mkSeeds
  { seed_lon : list float; seed_lat : list float; seed_depth : list float }.

(** The cells drawn for the particles, [valid_y[indices]] and
    [valid_x[indices]]. *)
Definition seed_cells (rnd : list nat) (NB_PARTICLES : nat)
    (lons_array : list float) (uo_sample : list (list float)) :
    option (list nat * list nat) :=
  cand ← coastal_candidates lons_array uo_sample;
  idx ← indices rnd (length cand.1) NB_PARTICLES;
  ys ← take_indices cand.1 idx;
  xs ← take_indices cand.2 idx;
  Some (ys, xs).

(** [lon=lons_array[valid_x[indices]], lat=lats_array[valid_y[indices]],
    depth=np.full(len(indices), depth_val)]. *)
Definition seeds (rnd : list nat) (NB_PARTICLES : nat)
    (lons_array lats_array : list float) (depth_val : float)
    (uo_sample : list (list float)) : option Seeds :=
  cells ← seed_cells rnd NB_PARTICLES lons_array uo_sample;
  lons ← take_indices lons_array cells.2;
  lats ← take_indices lats_array cells.1;
  Some {| seed_lon := lons; seed_lat := lats;
          seed_depth := replicate (length cells.1) depth_val |}.

(** ** 7. Dashboard: what is read off the curve *)

(** Python's [max] of a list of integers; [None] is the [ValueError] of an
    empty list. *)
Definition py_max (l : list nat) : option nat :=
  match l with
  | [] => None
  | x :: l' => Some (foldl Nat.max x l')
  end.

(** [max(curve)], from which the range of the y axis is taken. *)
Definition max_curve (r : Analysis) : option nat := py_max (curve r).

(** [curve[-1]], shown as the total of captured particles; [None] is
    [IndexError]. *)
Definition total_captured (r : Analysis) : option nat := last (curve r).

(** ** 4. Carte 1 : statique *)

(** [range(0, stop, step)] for a positive [step]. *)
Definition py_range (stop step : nat) : list nat :=
  (λ k, k * step)%nat <$> seq 0 ((stop + step - 1) / step)%nat.

(** [xs[mask]] for a boolean array [mask] of the length of [xs]. *)
Definition compress {A : Type} (mask : list bool) (xs : list A) : list A :=
  (filter (λ bx, bx.1 = true) (zip mask xs)).*2.

(** The colours the script draws with. *)
Inductive Colour := green | blue | red_e74c3c | blue_3498db.

(** What is added to a map: a [folium.CircleMarker] at (lat, lon) with its
    radius and colour, or a [folium.PolyLine] through (lat, lon) points. *)
Inductive Layer :=
  | CircleMarker (location : float * float) (radius : nat) (color : Colour)
  | PolyLine (locations : list (float * float)) (color : Colour).

(** folium checks every location it is handed: a NaN coordinate raises
    [ValueError]. *)
Definition validate_location (location : float * float) :
    option (float * float) :=
  if is_nan location.1 || is_nan location.2 then None else Some location.

(** The body of the loop of section 4 for one particle, from its rows
    [lat_traj[p, :]] and [lon_traj[p, :]]: nothing when no latitude is
    defined ([continue]), else the start marker, the end marker and the
    line.  [None] is the [IndexError] of [lats[0]] or [lats[-1]], or the
    [ValueError] of folium. *)
Definition static_layers (lats lons : list float) : option (list Layer) :=
  let valid := (λ x, negb (is_nan x)) <$> lats in
  if negb (existsb id valid) then Some []
  else
    let lats' := compress valid lats in
    let lons' := compress valid lons in
    lat0 ← head lats'; lon0 ← head lons';
    start ← validate_location (lat0, lon0);
    lat1 ← last lats'; lon1 ← last lons';
    final ← validate_location (lat1, lon1);
    line ← mapM validate_location (zip lats' lons');
    Some [CircleMarker start 2 green;
          CircleMarker final 3 red_e74c3c;
          PolyLine line blue].

Definition STEP_STATIC : nat := 50.

(** The layers added to [m1], in order. *)
Definition static_map (ds : Dataset) : option (list Layer) :=
  layers ← mapM (λ p, lats ← lat_traj ds !! p;
                      lons ← lon_traj ds !! p;
                      static_layers lats lons)
                (py_range (shape (lon_traj ds)).1 STEP_STATIC);
  Some (concat layers).

(** The points of one trajectory whose latitude is defined, as (lat, lon)
    pairs in the order of the steps. *)
Definition track (row : list Obs) : list (float * float) :=
  (λ o, (obs_lat o, obs_lon o)) <$> filter (λ o, is_nan (obs_lat o) = false) row.

(** What section 4 draws for a trajectory whose track has no NaN
    longitude. *)
Definition drawn (row : list Obs) : list Layer :=
  match head (track row), last (track row) with
  | Some first, Some final =>
      [CircleMarker first 2 green; CircleMarker final 3 red_e74c3c;
       PolyLine (track row) blue]
  | _, _ => []
  end.

(** The longitudes of a track are all defined. *)
Definition lon_defined (row : list Obs) : bool :=
  forallb (λ pt, negb (is_nan pt.2)) (track row).

(** ** 5. Carte 2 : dynamique, and 6. Carte 3 : dashboard *)

(** One entry of the [features] list: the point [[lon, lat]], its time
    string and the [iconstyle].  The type [T] is that of the time
    strings. *)
Record Feature (T : Type) := mkFeature
  { coordinates : float * float;
    feature_time : T;
    fillColor : Colour;
    fillOpacity : float;
    radius : float }.
Arguments mkFeature {T}.
Arguments coordinates {T}.
Arguments feature_time {T}.
Arguments fillColor {T}.
Arguments fillOpacity {T}.
Arguments radius {T}.

(** The style of a particle, captured or free: colour, radius, opacity. *)
Definition Style : Type := bool → Colour * float * float.

(** Section 5: [color], [radius] and [opacity]. *)
Definition style_dynamic : Style := λ captured,
  if captured then (red_e74c3c, 1.5, 1.0) else (blue_3498db, 1.0, 0.6).

(** Section 6: the same with the radii 3 and 2 and the opacities 1.0 and
    0.4. *)
Definition style_dashboard : Style := λ captured,
  if captured then (red_e74c3c, 3, 1.0) else (blue_3498db, 2, 0.4).

Section features.
Context {T : Type}.

(** [(start_date + timedelta(days=d)).strftime('%Y-%m-%dT%H:%M:%S')], a
    function of the day [d] alone; [None] when Python raises
    ([OverflowError] out of the range of dates). *)
Variable timestamp : float → option T.

(** [round(x, 3)] of a float. *)
Variable round3 : float → float.

(** The body of the inner loop at particle [p] and step [t]: no feature
    for a NaN longitude ([continue]), else one feature. *)
Definition feature_at (style : Style) (captured : gset nat)
    (lons lats : list (list float)) (days : list (list Z)) (p t : nat) :
    option (list (Feature T)) :=
  x ← index2 lons p t;
  if is_nan x then Some []
  else
    day ← day_of days t;
    current_time ← timestamp day;
    y ← index2 lats p t;
    Some [ {| coordinates := (round3 x, round3 y);
              feature_time := current_time;
              fillColor := (style (bool_decide (p ∈ captured))).1.1;
              fillOpacity := (style (bool_decide (p ∈ captured))).2;
              radius := (style (bool_decide (p ∈ captured))).1.2 |} ].

(** The two nested loops,
    [for p in range(0, n_part, step_part)] and
    [for t in range(0, n_steps, step_time)], appending to [features]. *)
Definition features (step_part step_time : nat) (style : Style)
    (captured : gset nat) (ds : Dataset) : option (list (Feature T)) :=
  days ← days_traj (time_vals ds);
  per_particle ←
    mapM (λ p,
      per_step ← mapM (feature_at style captured (lon_traj ds) (lat_traj ds) days p)
                      (py_range (shape (lon_traj ds)).2 step_time);
      Some (concat per_step))
    (py_range (shape (lon_traj ds)).1 step_part);
  Some (concat per_particle).

(** The feature drawn for particle [p] at a position [(x, y)] with the
    time string [tm]. *)
Definition feature_of (style : Style) (captured : gset nat) (p : nat)
    (x y : float) (tm : T) : Feature T :=
  {| coordinates := (round3 x, round3 y);
     feature_time := tm;
     fillColor := (style (bool_decide (p ∈ captured))).1.1;
     fillOpacity := (style (bool_decide (p ∈ captured))).2;
     radius := (style (bool_decide (p ∈ captured))).1.2 |}.

(** Section 5, [STEP_DYN_PART = 12] and [STEP_DYN_TIME = 2]. *)
Definition features_dynamic : gset nat → Dataset → option (list (Feature T)) :=
  features 12 2 style_dynamic.

(** Section 6, [STEP_DASH_PART = 10] and [STEP_DASH_TIME = 2]. *)
Definition features_dash : gset nat → Dataset → option (list (Feature T)) :=
  features 10 2 style_dashboard.

End features.

(** ** Vocabulary of the statements *)

(** The state a pass through the body leaves behind. *)
Definition flow_state (fl : flow) : Analysis :=
  match fl with Next st | Break st => st end.

(** The particles in the box at step [t]: both coordinates are read and
    pass the test. *)
Definition in_box_at (box : Box) (lons lats : list (list float))
    (p t : nat) : Prop :=
  ∃ x y, index2 lons p t = Some x ∧ index2 lats p t = Some y
         ∧ inside box x y = true.

(** Particle [p] has, at some step of the loop whose day is at or above
    30, a position with neither coordinate NaN that passes the test. *)
Definition entered_after_maturation (box : Box) (ds : Dataset) (p : nat) : Prop :=
  ∃ t day x y, (t < (shape (lon_traj ds)).2)%nat
    ∧ day_at ds t = Some day ∧ (30 <=? day) = true
    ∧ index2 (lon_traj ds) p t = Some x
    ∧ index2 (lat_traj ds) p t = Some y
    ∧ is_nan x = false ∧ is_nan y = false
    ∧ inside box x y = true.

(** The counts recorded so far never decrease and none exceeds the present
    size of the set; one day is recorded per count, none of them NaN. *)
Record recorded_ok (st : Analysis) : Prop := mk_recorded_ok
  { ok_sorted : StronglySorted le (curve st);
    ok_bound : Forall (λ c, c ≤ size (captured_ids st))%nat (curve st);
    ok_days : Forall (λ d, is_nan d = false) (t_axis st);
    ok_length : length (t_axis st) = length (curve st) }.

(** [st'] extends [st]: the set has only grown and the curve has only been
    appended to. *)
Record extends (st st' : Analysis) : Prop := mk_extends
  { ext_captured : captured_ids st ⊆ captured_ids st';
    ext_curve : curve st `prefix_of` curve st';
    ext_t_axis : t_axis st `prefix_of` t_axis st' }.

(** ** Stores used as examples *)

(** The box [0,1] x [0,1]. *)
Definition unit_box : Box :=
  {| lon_min := 0; lon_max := 1; lat_min := 0; lat_max := 1 |}.

(** Twelve hours, thirty-six hours, thirty days and sixty days in
    nanoseconds. *)
Definition ns_12h : Z := 43200000000000.
Definition ns_36h : Z := 129600000000000.
Definition ns_30d : Z := 2592000000000000.
Definition ns_60d : Z := 5184000000000000.

(** One particle: outside the box on day 0, inside on days 30 and 60. *)
Definition scenario_store : Dataset :=
  [[mkObs 0 5 5; mkObs ns_30d 0.5 0.5; mkObs ns_60d 0.5 0.5]].

(** One particle on the south-west and north-east corners of [AMP_BOX] as
    float32 holds them, on days 30 and 60. *)
Definition amp_corner_store : Dataset :=
  [[mkObs 0 5 5; mkObs ns_30d (to_f32 4.2) (to_f32 42.5);
    mkObs ns_60d (to_f32 5.2) (to_f32 43.2)]].

(** One particle recorded after 0, 12 and 36 hours. *)
Definition half_day_store : Dataset :=
  [[mkObs 0 5 5; mkObs ns_12h 5 5; mkObs ns_36h 5 5]].

(** One particle whose time is missing at step 1 and recorded again at
    step 2; its positions are all defined. *)
Definition gap_store : Dataset :=
  [[mkObs 0 5 5; mkObs NaT 0.5 0.5; mkObs ns_60d 0.5 0.5]].

(** One particle whose time is missing at step 2, where its position is
    defined. *)
Definition late_gap_store : Dataset :=
  [[mkObs 0 5 5; mkObs ns_30d 5 5; mkObs NaT 0.5 0.5]].

(** The first particle has no observation at step 1; the second one is
    recorded throughout and is inside the box on days 30 and 60. *)
Definition broken_axis_store : Dataset :=
  [[mkObs 0 5 5; mkObs NaT nan nan; mkObs ns_60d 5 5];
   [mkObs 0 5 5; mkObs ns_30d 0.5 0.5; mkObs ns_60d 0.5 0.5]].


(** ** Facts about binary64 comparisons

  [np.isnan x] is [is_nan x]; [a >= b] on floats is [b <=? a]. *)
Module F64.

Lemma compare_cont_Eq_refl (m : positive) : Pos.compare_cont Eq m m = Eq.
Proof. exact (Pos.compare_refl m). Qed.

Lemma SFcompare_refl (f : spec_float) :
  f ≠ S754_nan → SFcompare f f = Some Eq.
Proof.
  destruct f as [s|s| |s m e]; intros Hf; try done.
  - by destruct s.
  - cbn. rewrite Z.compare_refl, compare_cont_Eq_refl. by destruct s.
Qed.

Lemma SFcompare_antisym (f g : spec_float) :
  SFcompare g f = CompOpp <$> SFcompare f g.
Proof.
  destruct f as [s|s| |s m e], g as [s'|s'| |s' m' e']; cbn;
    try done; try (by destruct s); try (by destruct s');
    try (by destruct s, s').
  rewrite (Z.compare_antisym e e').
  change (Pos.compare_cont Eq m' m) with (Pos.compare_cont (CompOpp Eq) m' m).
  rewrite <- (Pos.compare_cont_antisym m m' Eq).
  destruct s, s'; cbn; try done;
    destruct (e ?= e')%Z; cbn; try done;
    by destruct (Pos.compare_cont Eq m m').
Qed.

(** [is_nan] holds exactly of the NaN of the specification. *)
Lemma is_nan_spec (x : float) : is_nan x = true ↔ Prim2SF x = S754_nan.
Proof.
  unfold is_nan. rewrite FloatAxioms.eqb_spec. unfold SFeqb. split.
  - intros H. destruct (Prim2SF x) as [s|s| |s m e] eqn:E; [| |done|];
      by rewrite SFcompare_refl in H.
  - by intros ->.
Qed.

(** Every ordered comparison with a NaN operand is false. *)
Lemma leb_nan_l (x y : float) : is_nan x = true → (x <=? y) = false.
Proof. rewrite is_nan_spec, leb_spec. by intros ->. Qed.

Lemma leb_nan_r (x y : float) : is_nan y = true → (x <=? y) = false.
Proof.
  rewrite is_nan_spec, leb_spec. intros ->.
  unfold SFleb. by destruct (Prim2SF x).
Qed.

Lemma leb_true_not_nan (x y : float) :
  (x <=? y) = true → is_nan x = false ∧ is_nan y = false.
Proof.
  intros H. split; apply not_true_is_false; intros Hn.
  - by rewrite (leb_nan_l _ _ Hn) in H.
  - by rewrite (leb_nan_r _ _ Hn) in H.
Qed.

(** Strictly below excludes at-or-above. *)
Lemma ltb_leb_false (x y : float) : (x <? y) = true → (y <=? x) = false.
Proof.
  rewrite ltb_spec, leb_spec. unfold SFltb, SFleb.
  rewrite (SFcompare_antisym (Prim2SF x) (Prim2SF y)).
  by destruct (SFcompare (Prim2SF x) (Prim2SF y)) as [[]|].
Qed.

(** Rounding an integer to a float never gives NaN. *)
Lemma shr_1_nonneg (mrs : shr_record) :
  (0 ≤ shr_m mrs)%Z → (0 ≤ shr_m (shr_1 mrs))%Z.
Proof. destruct mrs as [[|[p|p|]|p] r s]; simpl; lia. Qed.

Lemma iter_pos_shr_1_nonneg (p : positive) (mrs : shr_record) :
  (0 ≤ shr_m mrs)%Z → (0 ≤ shr_m (SpecFloat.iter_pos shr_1 p mrs))%Z.
Proof.
  revert mrs. induction p as [p IH|p IH|]; intros mrs H; simpl.
  - by apply IH, IH, shr_1_nonneg.
  - by apply IH, IH.
  - by apply shr_1_nonneg.
Qed.

Lemma shr_fexp_nonneg (prec emax m e : Z) (l : location) :
  (0 ≤ m)%Z → (0 ≤ shr_m (shr_fexp prec emax m e l).1)%Z.
Proof.
  intros Hm. unfold shr_fexp, shr.
  assert (0 ≤ shr_m (shr_record_of_loc m l))%Z as H0.
  { by destruct l as [|[]]. }
  destruct (fexp prec emax (Zdigits2 m + e) - e)%Z; simpl; try done.
  by apply iter_pos_shr_1_nonneg.
Qed.

Lemma round_nearest_even_nonneg (m : Z) (l : location) :
  (0 ≤ m)%Z → (0 ≤ round_nearest_even m l)%Z.
Proof.
  intros Hm. destruct l as [|[]]; simpl; try done; [destruct (Z.even m)|]; lia.
Qed.

Lemma binary_round_aux_not_nan (prec emax : Z) (sx : bool) (mx ex : Z)
    (lx : location) :
  (0 ≤ mx)%Z → binary_round_aux prec emax sx mx ex lx ≠ S754_nan.
Proof.
  intros Hm. unfold binary_round_aux.
  pose proof (shr_fexp_nonneg prec emax mx ex lx Hm) as H1.
  destruct (shr_fexp prec emax mx ex lx) as [mrs' e']. simpl in H1.
  pose proof (shr_fexp_nonneg prec emax
                (round_nearest_even (shr_m mrs') (loc_of_shr_record mrs')) e'
                loc_Exact (round_nearest_even_nonneg _ _ H1)) as H2.
  destruct (shr_fexp prec emax _ e' loc_Exact) as [mrs'' e'']. simpl in H2.
  destruct (shr_m mrs'') as [|m|m]; [done| |lia].
  by destruct (e'' <=? emax - prec)%Z.
Qed.

Lemma binary_normalize_not_nan (prec emax m e : Z) (sz : bool) :
  binary_normalize prec emax m e sz ≠ S754_nan.
Proof.
  destruct m as [|m|m]; simpl; [done|..]; unfold binary_round;
    destruct (shl_align _ _ _) as [mz ez]; by apply binary_round_aux_not_nan.
Qed.

End F64.

(** ** The boundary kernel *)

(** C5: the western clamp is idempotent: for every particle (hence every
    longitude, NaN and the infinities included), running [GibraltarWall]
    on its own result changes nothing. *)
Theorem GibraltarWall_idempotent {FS : Type} (p : Particle) (fs fs' : FS)
    (t t' : float) :
  GibraltarWall (GibraltarWall p fs t) fs' t' = GibraltarWall p fs t.
Proof.
  unfold GibraltarWall at 2 3.
  destruct (lon p <? -5.8) eqn:Hwest.
  - reflexivity.
  - unfold GibraltarWall. by rewrite Hwest.
Qed.

(** ** Two-dimensional reads *)

Lemma index2_fmap {A B : Type} (f : A → B) (a : list (list A)) (i j : nat) :
  index2 (fmap (M:=list) f <$> a) i j = f <$> index2 a i j.
Proof.
  unfold index2. rewrite list_lookup_fmap.
  destruct (a !! i) as [row|]; simpl; [apply list_lookup_fmap | done].
Qed.

(** ** The coastal mask *)

Lemma dilate_row (structure m : list (list bool)) (i : nat) (row : list bool) :
  m !! i = Some row →
  ∃ row', dilate structure m !! i = Some row' ∧ length row' = length row.
Proof.
  intros H. unfold dilate. rewrite list_lookup_imap, H. simpl.
  eexists. split; [done|]. apply length_imap.
Qed.

(** A dilation, however often repeated, keeps the shape of its input. *)
Lemma binary_dilation_row (structure m : list (list bool)) (n i : nat)
    (row : list bool) :
  m !! i = Some row →
  ∃ row', binary_dilation m structure n !! i = Some row'
          ∧ length row' = length row.
Proof.
  intros H. unfold binary_dilation.
  induction n as [|n (row' & Hrow' & Hlen)]; simpl.
  - by exists row.
  - destruct (dilate_row structure _ _ _ Hrow') as (row'' & ? & ?).
    exists row''. split; [done | congruence].
Qed.

Lemma mask_coastal_defined (uo_sample : list (list float)) (i j : nat) (l : bool) :
  index2 (mask_land uo_sample) i j = Some l →
  ∃ d, index2 (mask_land_dilated uo_sample) i j = Some d
       ∧ index2 (mask_coastal uo_sample) i j = Some (d && negb l).
Proof.
  unfold index2. intros H. apply bind_Some in H as (row & Hrow & Hl).
  destruct (binary_dilation_row generate_binary_structure_2_2 _ 4 _ _ Hrow)
    as (drow & Hdrow & Hlen).
  assert (is_Some (drow !! j)) as [d Hd].
  { apply lookup_lt_is_Some. rewrite Hlen. by eapply lookup_lt_Some. }
  exists d. unfold mask_coastal, mask_land_dilated. split.
  - by rewrite Hdrow.
  - rewrite lookup_zip_with, Hdrow, Hrow. simpl.
    by rewrite lookup_zip_with, Hd, Hl.
Qed.

(** C9: a cell of the sample is classified land exactly when its velocity
    is NaN, or is above 1e10, or compares equal to zero; every other cell
    of the sample is classified sea ([false]). *)
Theorem mask_land_classifies (uo_sample : list (list float)) (i j : nat)
    (uo : float) :
  index2 uo_sample i j = Some uo →
  ∃ b, index2 (mask_land uo_sample) i j = Some b
       ∧ (b = true ↔ is_nan uo = true ∨ (1e10 <? uo) = true ∨ (uo =? 0) = true)
       ∧ (b = false ↔ is_nan uo = false ∧ (1e10 <? uo) = false ∧ (uo =? 0) = false).
Proof.
  intros H. exists (land_cell uo). unfold mask_land.
  rewrite index2_fmap, H. split; [done|]. unfold land_cell.
  destruct (is_nan uo), (1e10 <? uo), (uo =? 0); simpl; intuition congruence.
Qed.

Lemma mask_land_classifies_witness :
  ∃ b, index2 (mask_land [[0.25; nan]; [0; 2e10]]) 1 0 = Some b
       ∧ (b = true ↔ is_nan 0 = true ∨ (1e10 <? 0) = true ∨ (0 =? 0) = true)
       ∧ (b = false ↔ is_nan 0 = false ∧ (1e10 <? 0) = false ∧ (0 =? 0) = false).
Proof. apply (mask_land_classifies [[0.25; nan]; [0; 2e10]] 1 0 0). reflexivity. Defined.

(** C4: the coastal band is the dilated land without the land, so no cell
    of the grid is both land and coastal band: wherever the two masks are
    read at one cell, they are not both set; and the coastal mask has a
    cell wherever the land mask has one. *)
Theorem coastal_disjoint_from_land (uo_sample : list (list float)) (i j : nat)
    (l : bool) :
  index2 (mask_land uo_sample) i j = Some l →
  ∃ c, index2 (mask_coastal uo_sample) i j = Some c ∧ l && c = false.
Proof.
  intros H. destruct (mask_coastal_defined _ _ _ _ H) as (d & _ & Hc).
  exists (d && negb l). split; [done|]. by destruct l, d.
Qed.

Lemma coastal_disjoint_from_land_witness :
  ∃ c, index2 (mask_coastal [[0; 0.3; 0.1]; [nan; 0.2; 0.1]]) 0 1 = Some c
       ∧ false && c = false.
Proof.
  apply (coastal_disjoint_from_land [[0; 0.3; 0.1]; [nan; 0.2; 0.1]] 0 1 false).
  reflexivity.
Defined.

(** ** The seeder *)

Lemma draw_length (rnd pool : list nat) (size : nat) :
  length (draw rnd pool size) = (size `min` length pool)%nat.
Proof.
  revert rnd pool. induction size as [|size IH]; intros rnd pool; [done|].
  cbn [draw]. set (r := (default 0 (head rnd) `mod` length pool)%nat).
  destruct (pool !! r) as [x|] eqn:Hx.
  - cbn [length]. rewrite IH, length_delete by eauto.
    apply lookup_lt_Some in Hx. lia.
  - destruct pool as [|y pool]; [done|].
    apply lookup_ge_None in Hx.
    pose proof (Nat.mod_upper_bound (default 0%nat (head rnd)) (length (y :: pool))).
    simpl in *. lia.
Qed.

Lemma draw_elem_of (rnd pool : list nat) (size x : nat) :
  x ∈ draw rnd pool size → x ∈ pool.
Proof.
  revert rnd pool. induction size as [|size IH]; intros rnd pool; simpl.
  { by intros ?%elem_of_nil. }
  set (r := (default 0 (head rnd) `mod` length pool)%nat).
  destruct (pool !! r) as [y|] eqn:Hy; [|by intros ?%elem_of_nil].
  rewrite (delete_Permutation pool r y Hy) at 2.
  intros [->|Hin%IH]%elem_of_cons; [left | by right].
Qed.

Lemma draw_NoDup (rnd pool : list nat) (size : nat) :
  NoDup pool → NoDup (draw rnd pool size).
Proof.
  revert rnd pool. induction size as [|size IH]; intros rnd pool Hpool; simpl.
  { constructor. }
  set (r := (default 0 (head rnd) `mod` length pool)%nat).
  destruct (pool !! r) as [y|] eqn:Hy; [|constructor].
  rewrite (delete_Permutation pool r y Hy) in Hpool.
  apply NoDup_cons in Hpool as [Hy' Hrest].
  apply NoDup_cons. split; [|by apply IH].
  intros Hin. apply Hy'. by eapply draw_elem_of.
Qed.

(** Every duplicate-free sample of the pool is the outcome of some draws:
    the model of the generator leaves no sample out. *)
Lemma draw_complete (pool l : list nat) :
  NoDup l → l ⊆ pool → ∃ rnd, draw rnd pool (length l) = l.
Proof.
  revert pool. induction l as [|x l IH]; intros pool Hl Hsub.
  { by exists []. }
  apply NoDup_cons in Hl as [Hx Hl].
  assert (x ∈ pool) as (r & Hr)%list_elem_of_lookup by (apply Hsub; by left).
  destruct (IH (delete r pool) Hl) as (rnd & Hrnd).
  { intros y Hy. assert (y ∈ pool) as Hyp by (apply Hsub; by right).
    rewrite (delete_Permutation pool r x Hr) in Hyp.
    apply elem_of_cons in Hyp as [->|]; done. }
  exists (r :: rnd). simpl.
  rewrite Nat.mod_small by (by eapply lookup_lt_Some).
  by rewrite Hr, Hrnd.
Qed.

(** C3: whatever the generator draws, the seeder raises no error and
    returns min(N, P) indices, all of them candidates and no two equal;
    with more candidates than requested that is N indices, otherwise it is
    every candidate once, in order. *)
Theorem indices_spec (rnd : list nat) (P N : nat) :
  ∃ l, indices rnd P N = Some l
       ∧ length l = (N `min` P)%nat
       ∧ NoDup l
       ∧ (∀ i, i ∈ l → (i < P)%nat)
       ∧ ((N < P)%nat → length l = N)
       ∧ ((P ≤ N)%nat → l = arange P).
Proof.
  unfold indices, random_choice, arange.
  destruct (decide (N < P)%nat) as [Hlt|Hge].
  - rewrite decide_True by lia. eexists. split; [done|].
    rewrite draw_length, length_seq. repeat split.
    + auto using draw_NoDup, NoDup_seq.
    + intros i Hi%draw_elem_of%elem_of_seq. lia.
    + lia.
    + lia.
  - eexists. split; [done|]. rewrite length_seq. repeat split.
    + lia.
    + apply NoDup_seq.
    + intros i Hi%elem_of_seq. lia.
    + lia.
Qed.

(** ** Columns, membership tests and [np.where] *)

Lemma column_lookup {A : Type} (a : list (list A)) (t : nat) (col : list A) :
  column a t = Some col → ∀ p, col !! p = index2 a p t.
Proof.
  unfold column, index2. intros H%mapM_Some p.
  destruct (a !! p) as [row|] eqn:Hrow; simpl.
  - destruct (Forall2_lookup_l _ _ _ _ _ H Hrow) as (y & -> & Hy). done.
  - apply lookup_ge_None. apply lookup_ge_None in Hrow.
    by rewrite <- (Forall2_length _ _ _ H).
Qed.

Lemma column_is_Some {A : Type} (a : list (list A)) (t : nat) :
  Forall (λ row, (t < length row)%nat) a → is_Some (column a t).
Proof.
  intros H. apply mapM_is_Some. eapply Forall_impl; [exact H|].
  intros row Hlt. by apply lookup_lt_is_Some.
Qed.

Lemma elem_of_where1 (b : list bool) (p : nat) :
  p ∈ where1 b ↔ b !! p = Some true.
Proof.
  unfold where1. rewrite list_elem_of_filter, elem_of_seq. split.
  - by intros [? _].
  - intros H. split; [done|]. apply lookup_lt_Some in H. lia.
Qed.

Lemma in_box_lookup (box : Box) (xs ys : list float) (p : nat) :
  in_box box xs ys !! p = Some true ↔
  ∃ x y, xs !! p = Some x ∧ ys !! p = Some y ∧ inside box x y = true.
Proof.
  unfold in_box. rewrite lookup_zip_with_Some. naive_solver.
Qed.

(** The test is inclusive on its four sides. *)
Lemma inside_true (box : Box) (x y : float) :
  inside box x y = true ↔
  (to_f32 (lon_min box) <=? x) = true ∧ (x <=? to_f32 (lon_max box)) = true
  ∧ (to_f32 (lat_min box) <=? y) = true ∧ (y <=? to_f32 (lat_max box)) = true.
Proof. unfold inside. rewrite !andb_true_iff. tauto. Qed.

(** A NaN coordinate fails the test. *)
Lemma inside_nan (box : Box) (x y : float) :
  is_nan x = true ∨ is_nan y = true → inside box x y = false.
Proof.
  intros H. apply not_true_is_false. rewrite inside_true.
  intros (H1 & _ & H2 & _).
  apply F64.leb_true_not_nan in H1 as [_ H1].
  apply F64.leb_true_not_nan in H2 as [_ H2].
  destruct H; congruence.
Qed.

(** ** Bounds rounded to float32 *)

(** One shift to the right halves the mantissa and keeps the bit that
    falls off. *)
Lemma shr_1_spec (m : Z) (r s : bool) :
  (0 ≤ m)%Z →
  shr_1 {| shr_m := m; shr_r := r; shr_s := s |}
  = {| shr_m := Z.div2 m; shr_r := Z.odd m; shr_s := r || s |}.
Proof. destruct m as [|[p|p|]|p]; try done; lia. Qed.

(** Repeated shifts, counted in unary. *)
Lemma iter_pos_nat {A : Type} (f : A → A) (p : positive) (x : A) :
  SpecFloat.iter_pos f p x = Nat.iter (Pos.to_nat p) f x.
Proof.
  revert x. induction p as [p IH|p IH|]; intros x; simpl SpecFloat.iter_pos.
  - rewrite !IH, Pos2Nat.inj_xI. rewrite <- Nat.iter_add.
    replace (S (2 * Pos.to_nat p)) with (Pos.to_nat p + Pos.to_nat p + 1)%nat by lia.
    by rewrite (Nat.iter_add (Pos.to_nat p + Pos.to_nat p) 1).
  - rewrite !IH, Pos2Nat.inj_xO. rewrite <- Nat.iter_add.
    f_equal. lia.
  - done.
Qed.

(** After [n + 1] shifts the mantissa has lost its [n + 1] low bits and the
    round bit is the last one lost. *)
Lemma shr_iter (n : nat) (m : Z) (r s : bool) :
  (0 ≤ m)%Z →
  shr_m (Nat.iter (S n) shr_1 {| shr_m := m; shr_r := r; shr_s := s |})
  = Z.shiftr m (Z.of_nat (S n))
  ∧ shr_r (Nat.iter (S n) shr_1 {| shr_m := m; shr_r := r; shr_s := s |})
    = Z.testbit m (Z.of_nat n).
Proof.
  intros Hm. induction n as [|n [IHm IHr]].
  - change (Nat.iter 1 shr_1 ?x) with (shr_1 x).
    rewrite shr_1_spec by done. cbn [shr_m shr_r]. split.
    + by rewrite Z.div2_spec.
    + change (Z.of_nat 0) with 0%Z. by rewrite Z.bit0_odd.
  - change (Nat.iter (S (S n)) shr_1 ?x) with (shr_1 (Nat.iter (S n) shr_1 x)).
    destruct (Nat.iter (S n) shr_1 _) as [m' r' s'] eqn:E.
    cbn [shr_m shr_r] in IHm, IHr.
    rewrite shr_1_spec.
    2:{ rewrite IHm. apply Z.shiftr_nonneg. done. }
    cbn [shr_m shr_r]. rewrite IHm. split.
    + rewrite Z.div2_spec, Z.shiftr_shiftr by lia. f_equal; lia.
    + rewrite Z.testbit_odd. do 2 f_equal; lia.
Qed.

(** Rounding to float32 a double of the float32 normal range whose bits
    below the 24th are less than half a unit keeps the 24 leading bits. *)
Lemma round32_down (mx q : positive) (e j : Z) :
  Z.pos (digits2_pos mx) = 53%Z → Z.pos (digits2_pos q) = 24%Z →
  (-149 ≤ e + 29)%Z → (e + 29 ≤ 104)%Z →
  Z.pos mx = (Z.pos q * 2 ^ 29 + j)%Z → (0 ≤ j < 2 ^ 28)%Z →
  binary_round 24 128 false mx e = S754_finite false q (e + 29).
Proof.
  intros Hd Hdq He1 He2 Hmx Hj.
  unfold binary_round. rewrite Hd.
  assert (fexp 24 128 (53 + e) = e + 29)%Z as Hfexp.
  { unfold fexp, emin. lia. }
  rewrite Hfexp. unfold shl_align.
  replace (e + 29 - e)%Z with 29%Z by lia.
  unfold binary_round_aux, shr_fexp. cbn [Zdigits2]. rewrite Hd, Hfexp.
  replace (e + 29 - e)%Z with 29%Z by lia.
  cbn [shr shr_record_of_loc]. rewrite iter_pos_nat.
  change (Pos.to_nat 29) with 29%nat.
  destruct (shr_iter 28 (Z.pos mx) false false) as [Hm Hr]; [lia|].
  destruct (Nat.iter 29 shr_1 _) as [m' r' s'].
  cbn [shr_m shr_r] in Hm, Hr.
  assert (m' = Z.pos q) as ->.
  { rewrite Hm, Z.shiftr_div_pow2 by lia. change (Z.of_nat 29) with 29%Z.
    symmetry. apply (Z.div_unique_pos _ _ _ j); lia. }
  assert (r' = false) as ->.
  { rewrite Hr. change (Z.of_nat 28) with 28%Z. apply Z.testbit_false; [lia|].
    replace (Z.pos mx / 2 ^ 28)%Z with (2 * Z.pos q)%Z.
    - by rewrite Z.mul_comm, Z.mod_mul.
    - apply (Z.div_unique_pos _ _ _ j); lia. }
  cbn [shr_m].
  assert (round_nearest_even (Z.pos q) (loc_of_shr_record
            {| shr_m := Z.pos q; shr_r := false; shr_s := s' |}) = Z.pos q) as ->.
  { by destruct s'. }
  cbn [Zdigits2]. rewrite Hdq.
  assert (fexp 24 128 (24 + (e + 29)) = e + 29)%Z as ->.
  { unfold fexp, emin. lia. }
  rewrite Z.sub_diag. cbn [shr shr_m shr_record_of_loc].
  assert ((e + 29 <=? 128 - 24)%Z = true) as -> by lia.
  done.
Qed.

(** [<=] on doubles is transitive. *)
Lemma SFleb_trans (a b c : spec_float) :
  SFleb a b = true → SFleb b c = true → SFleb a c = true.
Proof.
  unfold SFleb, SFcompare.
  destruct a as [sa|sa| |sa ma ea], b as [sb|sb| |sb mb eb],
    c as [sc|sc| |sc mc ec];
    try (destruct sa); try (destruct sb); try (destruct sc);
    try done; change (Pos.compare_cont Eq) with Pos.compare;
    destruct (Z.compare_spec ea eb), (Z.compare_spec eb ec),
      (Z.compare_spec ea ec); try done; try lia;
    destruct (Pos.compare_spec ma mb), (Pos.compare_spec mb mc),
      (Pos.compare_spec ma mc); try done; try lia.
Qed.

Lemma leb_trans (a b c : float) :
  (a <=? b) = true → (b <=? c) = true → (a <=? c) = true.
Proof. rewrite !leb_spec. apply SFleb_trans. Qed.

(** An upper bound that float32 rounds down: no float32 lies between the
    rounded bound and the bound, so a float32 at or below the bound is at
    or below the rounded bound. *)
Lemma upper_bound_rounded_down (b x : float) (mb q : positive) (e : Z) :
  Prim2SF b = S754_finite false mb e →
  round32 (Prim2SF b) = S754_finite false q (e + 29) →
  Prim2SF (to_f32 b) = S754_finite false (q * 2 ^ 29) e →
  Z.pos (digits2_pos q) = 24%Z →
  (-149 ≤ e + 29)%Z → (e + 29 ≤ 104)%Z →
  (Z.pos mb < Z.pos q * 2 ^ 29 + 2 ^ 28)%Z →
  to_f32 x = x → (x <=? b) = true → (x <=? to_f32 b) = true.
Proof.
  intros Hb Hrb Hfb Hdq He1 He2 Hlow Hx.
  rewrite !leb_spec, Hb, Hfb.
  pose proof (Prim2SF_valid x) as Hvalid.
  destruct (Prim2SF x) as [s|s| |s mx ex] eqn:HX; try done.
  destruct s; [done|].
  unfold SFleb, SFcompare. change (Pos.compare_cont Eq) with Pos.compare.
  destruct (Z.compare_spec ex e) as [->| |]; try done.
  destruct (Pos.compare_spec mx mb) as [Hm|Hm|Hm]; try done; intros _;
    (destruct (Pos.compare_spec mx (q * 2 ^ 29)) as [|?|Hgap]; [done|done|]);
    exfalso.
  all: assert (binary_round 24 128 false mx e = S754_finite false q (e + 29))
         as Hround.
  all: try (apply (round32_down mx q e (Z.pos mx - Z.pos q * 2 ^ 29));
            [ | done | done | done | lia | lia ];
            cbn [valid_binary] in Hvalid; unfold bounded, canonical_mantissa in Hvalid;
            apply andb_true_iff in Hvalid as [Hc%Z.eqb_eq _];
            unfold fexp, SpecFloat.emin, prec, emax in Hc; lia).
  all: assert (x = to_f32 b) as Heq
         by (rewrite <- Hx; unfold to_f32; by rewrite HX, Hrb; cbn [round32]; rewrite Hround).
  all: rewrite Heq, Hfb in HX; injection HX as HX; lia.
Qed.

(** With the bounds of [AMP_BOX] as the script writes them: a position
    whose longitude is a float32 number and which satisfies
    4.2 <= lon <= 5.2 and 42.5 <= lat <= 43.2 passes the test. *)
Lemma amp_box_written_bounds (x y : float) :
  to_f32 x = x →
  (4.2 <=? x) = true → (x <=? 5.2) = true →
  (42.5 <=? y) = true → (y <=? 43.2) = true →
  inside AMP_BOX x y = true.
Proof.
  intros Hx H1 H2 H3 H4. apply inside_true.
  cbn [AMP_BOX lon_min lon_max lat_min lat_max]. split; [|split; [|split]].
  - apply (leb_trans _ 4.2); [by vm_compute|done].
  - apply (upper_bound_rounded_down 5.2 x 5854679515581645 10905190 (-50));
      [by vm_compute | by vm_compute | by vm_compute | by vm_compute
      | by vm_compute | by vm_compute | by vm_compute | done | done].
  - assert (to_f32 42.5 = 42.5) as -> by (by vm_compute). done.
  - apply (leb_trans _ 43.2); [done|by vm_compute].
Qed.

(** ** The days *)

(** The float of an integer is never NaN. *)
Lemma f64_of_int64_not_nan (z : Z) : is_nan (f64_of_int64 z) = false.
Proof.
  apply not_true_is_false. rewrite F64.is_nan_spec. unfold f64_of_int64.
  destruct (0 <=? z)%Z.
  - rewrite of_uint63_spec. apply F64.binary_normalize_not_nan.
  - rewrite FloatAxioms.opp_spec, of_uint63_spec.
    pose proof (F64.binary_normalize_not_nan prec emax
                  (Uint63Axioms.to_Z (Uint63.of_Z (- z))) 0 false).
    by destruct (binary_normalize _ _ _ _ _).
Qed.

Lemma py_float_not_nan (td : Z) (day : float) :
  py_float td = Some day → is_nan day = false.
Proof.
  unfold py_float. destruct (bool_decide (td = NaT)); [done|].
  intros [= <-]. apply f64_of_int64_not_nan.
Qed.

(** A day that is read is never NaN: a missing time is NaT, on which the
    read raises. *)
Lemma day_of_not_nan (days : list (list Z)) (t : nat) (day : float) :
  day_of days t = Some day → is_nan day = false.
Proof.
  unfold day_of. intros (td & _ & Hday)%bind_Some.
  by eapply py_float_not_nan.
Qed.

Lemma py_float_NaT : py_float NaT = None.
Proof. done. Qed.

Lemma td_sub_NaT_l (b : Z) : td_sub NaT b = NaT.
Proof. unfold td_sub. rewrite bool_decide_eq_true_2; [done|by left]. Qed.

Lemma td_sub_NaT_r (a : Z) : td_sub a NaT = NaT.
Proof. unfold td_sub. rewrite bool_decide_eq_true_2; [done|by right]. Qed.

Lemma td_div_NaT (d : float) : td_div NaT d = NaT.
Proof. done. Qed.

(** ** The loop body *)

Lemma body_Break (box : Box) (lons lats : list (list float))
    (days : list (list Z)) (t : nat) (st st' : Analysis) :
  body box lons lats days t st = Some (Break st') ↔
  st' = st ∧ ∃ day, day_of days t = Some day ∧ is_nan day = true.
Proof.
  unfold body. destruct (day_of days t) as [day|]; simpl.
  - destruct (is_nan day) eqn:Hnan.
    + split.
      * intros [= ->]. eauto.
      * by intros [-> _].
    + split.
      * intros H. apply bind_Some in H as (ids & _ & ?). done.
      * intros (_ & d & [= <-] & ?). congruence.
  - split; [done|]. by intros (_ & d & ? & _).
Qed.

Lemma body_Next (box : Box) (lons lats : list (list float))
    (days : list (list Z))
    (t : nat) (st st' : Analysis) :
  body box lons lats days t st = Some (Next st') →
  ∃ day, day_of days t = Some day ∧ is_nan day = false
    ∧ curve st' = curve st ++ [size (captured_ids st')]
    ∧ t_axis st' = t_axis st ++ [day]
    ∧ ∀ p, p ∈ captured_ids st' ↔
           p ∈ captured_ids st
           ∨ ((30 <=? day) = true ∧ in_box_at box lons lats p t).
Proof.
  unfold body. destruct (day_of days t) as [day|]; simpl; [|done].
  destruct (is_nan day) eqn:Hnan; [done|]. intros H.
  apply bind_Some in H as (ids & Hids & [= <-]). simpl.
  exists day. repeat split; try done.
  - destruct (30 <=? day); simpl in Hids.
    + apply bind_Some in Hids as (xs & Hxs & Hids).
      apply bind_Some in Hids as (ys & Hys & [= <-]).
      rewrite elem_of_union, elem_of_list_to_set, elem_of_where1, in_box_lookup.
      rewrite (column_lookup _ _ _ Hxs), (column_lookup _ _ _ Hys).
      intros [?|?]; [by left | by right].
    + injection Hids as <-. by left.
  - destruct (30 <=? day); simpl in Hids.
    + apply bind_Some in Hids as (xs & Hxs & Hids).
      apply bind_Some in Hids as (ys & Hys & [= <-]).
      rewrite elem_of_union, elem_of_list_to_set, elem_of_where1, in_box_lookup.
      rewrite (column_lookup _ _ _ Hxs), (column_lookup _ _ _ Hys).
      intros [?|[_ ?]]; [by left | by right].
    + injection Hids as <-. intros [?|[? _]]; done.
Qed.

Lemma body_is_Some (box : Box) (lons lats : list (list float))
    (days : list (list Z))
    (t : nat) (st : Analysis) :
  is_Some (day_of days t) → is_Some (column lons t) → is_Some (column lats t) →
  is_Some (body box lons lats days t st).
Proof.
  intros [day Hday] [xs Hxs] [ys Hys]. unfold body. rewrite Hday. simpl.
  destruct (is_nan day); [done|].
  destruct (30 <=? day); simpl; [|done]. by rewrite Hxs, Hys.
Qed.

(** ** Loops with [break] *)

Section for_range.
Variable f : nat → Analysis → option flow.

(** A property kept by every pass through the body holds when the loop
    ends, however it ends. *)
Lemma for_range_ind (P : Analysis → Prop) (ts : list nat) (st s : Analysis) :
  (∀ t st fl, t ∈ ts → P st → f t st = Some fl → P (flow_state fl)) →
  P st → for_range f ts st = Some s → P s.
Proof.
  revert st. induction ts as [|t ts IH]; intros st Hf Hst; simpl.
  { by intros [= <-]. }
  destruct (f t st) as [[st'|st']|] eqn:Hbody; [| |done].
  - apply IH.
    + intros t' ???. apply Hf. by right.
    + apply (Hf t st (Next st')); [by left|done..].
  - intros [= <-]. apply (Hf t st (Break st')); [by left|done..].
Qed.

(** Running further continues from where the shorter run ended, over the
    remaining steps or, after a [break], over none. *)
Lemma for_range_app_inv (ts1 ts2 : list nat) (st s1 s2 : Analysis) :
  for_range f ts1 st = Some s1 → for_range f (ts1 ++ ts2) st = Some s2 →
  for_range f ts2 s1 = Some s2 ∨ s2 = s1.
Proof.
  revert st. induction ts1 as [|t ts1 IH]; intros st; simpl.
  - intros [= <-] ?. by left.
  - destruct (f t st) as [[st'|st']|]; [apply IH| |done].
    intros [= <-] [= <-]. by right.
Qed.

(** When no earlier step breaks, one more step is one more pass through
    the body. *)
Lemma for_range_snoc (ts : list nat) (t : nat) (st s : Analysis) :
  (∀ t' st' st'', t' ∈ ts → f t' st' ≠ Some (Break st'')) →
  for_range f ts st = Some s →
  for_range f (ts ++ [t]) st = flow_state <$> f t s.
Proof.
  revert st. induction ts as [|t1 ts IH]; intros st Hnb; simpl.
  - intros [= <-]. by destruct (f t st) as [[]|].
  - destruct (f t1 st) as [[st'|st']|] eqn:Hbody; [| |done].
    + apply IH. intros t' ???. apply Hnb. by right.
    + exfalso. eapply Hnb; [|done]. by left.
Qed.

(** Without a [break] before it, a step whose body raises makes the loop
    raise. *)
Lemma for_range_None_at (ts1 ts2 : list nat) (t : nat) (st : Analysis) :
  (∀ t' st' st'', f t' st' ≠ Some (Break st'')) →
  (∀ st', f t st' = None) →
  for_range f (ts1 ++ t :: ts2) st = None.
Proof.
  intros Hnb Hnone. revert st. induction ts1 as [|t1 ts1 IH]; intros st; simpl.
  - by rewrite Hnone.
  - destruct (f t1 st) as [[st'|st']|] eqn:Hbody; [apply IH| |done].
    by apply Hnb in Hbody.
Qed.

Lemma for_range_is_Some (ts : list nat) (st : Analysis) :
  (∀ t st', t ∈ ts → is_Some (f t st')) → is_Some (for_range f ts st).
Proof.
  revert st. induction ts as [|t ts IH]; intros st Hf; simpl; [done|].
  destruct (Hf t st) as [[st'|st'] ->]; [by left| |done].
  apply IH. intros t' ??. apply Hf. by right.
Qed.

End for_range.

Lemma for_range_ext (f g : nat → Analysis → option flow) (ts : list nat)
    (st : Analysis) :
  (∀ t st', t ∈ ts → f t st' = g t st') → for_range f ts st = for_range g ts st.
Proof.
  revert st. induction ts as [|t ts IH]; intros st Hfg; simpl; [done|].
  rewrite <- Hfg by (by left).
  destruct (f t st) as [[st'|st']|]; [|done..].
  apply IH. intros t' ??. apply Hfg. by right.
Qed.

(** ** What every pass through the body keeps *)

Lemma extends_refl (st : Analysis) : extends st st.
Proof. by split. Qed.

Lemma extends_trans (st1 st2 st3 : Analysis) :
  extends st1 st2 → extends st2 st3 → extends st1 st3.
Proof. intros [] []. split; by etrans. Qed.

Lemma body_extends (box : Box) (lons lats : list (list float))
    (days : list (list Z))
    (t : nat) (st : Analysis) (fl : flow) :
  body box lons lats days t st = Some fl → extends st (flow_state fl).
Proof.
  destruct fl as [st'|st']; simpl.
  - intros (day & _ & _ & Hc & Ht & Hin)%body_Next. split.
    + intros p Hp. apply Hin. by left.
    + rewrite Hc. by apply prefix_app_r.
    + rewrite Ht. by apply prefix_app_r.
  - intros [-> _]%body_Break. apply extends_refl.
Qed.

Lemma body_recorded_ok (box : Box) (lons lats : list (list float))
    (days : list (list Z))
    (t : nat) (st : Analysis) (fl : flow) :
  recorded_ok st → body box lons lats days t st = Some fl →
  recorded_ok (flow_state fl).
Proof.
  intros [Hs Hb Hd Hl] Hbody.
  pose proof (body_extends _ _ _ _ _ _ _ Hbody) as [Hsub _ _].
  destruct fl as [st'|st']; simpl in *.
  - apply body_Next in Hbody as (day & _ & Hnan & Hc & Ht & _).
    apply subseteq_size in Hsub.
    assert (Forall (λ c, c ≤ size (captured_ids st'))%nat (curve st)) as Hb'.
    { eapply Forall_impl; [exact Hb|]. simpl. lia. }
    split; rewrite ?Hc, ?Ht.
    + apply StronglySorted_app_2; [|done|repeat constructor].
      intros c1 c2 Hc1 ->%list_elem_of_singleton.
      by eapply Forall_forall in Hb'.
    + apply Forall_app. split; [done|]. by repeat constructor.
    + apply Forall_app. split; [done|]. by repeat constructor.
    + rewrite !length_app. simpl. lia.
  - apply body_Break in Hbody as [-> _]. by split.
Qed.

Lemma analysis_init_ok : recorded_ok analysis_init.
Proof. split; simpl; by constructor. Qed.

(** ** The analysis as a whole *)

Lemma run_Some (box : Box) (ds : Dataset) (k : nat) (s : Analysis) :
  run box ds k = Some s ↔
  ∃ days, days_traj (time_vals ds) = Some days
    ∧ for_range (body box (lon_traj ds) (lat_traj ds) days) (seq 0 k)
        analysis_init = Some s.
Proof. unfold run. apply bind_Some. Qed.

Lemma day_at_days (ds : Dataset) (days : list (list Z)) (t : nat) :
  days_traj (time_vals ds) = Some days → day_at ds t = day_of days t.
Proof. unfold day_at. by intros ->. Qed.

(** The day axis is read off the first row of [time]. *)
Lemma day_at_first_row (ds : Dataset) (t : nat) :
  day_at ds t =
  t00 ← index2 (time_vals ds) 0 0;
  x ← index2 (time_vals ds) 0 t;
  py_float (td_div (td_div (td_sub x t00) 1e9) 86400).
Proof.
  unfold day_at, days_traj, day_of.
  destruct (index2 (time_vals ds) 0 0) as [t00|]; simpl; [|done].
  rewrite index2_fmap. by destruct (index2 (time_vals ds) 0 t).
Qed.

(** A missing time, at the step or at the origin, leaves the day
    undefined. *)
Lemma day_at_NaT (ds : Dataset) (t : nat) :
  index2 (time_vals ds) 0 t = Some NaT → day_at ds t = None.
Proof.
  intros Hx. rewrite day_at_first_row, Hx.
  destruct (index2 (time_vals ds) 0 0) as [t00|]; simpl; [|done].
  by rewrite td_sub_NaT_l, !td_div_NaT.
Qed.

Lemma day_at_NaT_origin (ds : Dataset) (t : nat) :
  index2 (time_vals ds) 0 0 = Some NaT → day_at ds t = None.
Proof.
  intros Hx. rewrite day_at_first_row, Hx. simpl.
  destruct (index2 (time_vals ds) 0 t) as [x|]; simpl; [|done].
  by rewrite td_sub_NaT_r, !td_div_NaT.
Qed.

Lemma day_at_not_nan (ds : Dataset) (t : nat) (day : float) :
  day_at ds t = Some day → is_nan day = false.
Proof.
  unfold day_at. intros (days & _ & Hday)%bind_Some.
  by eapply day_of_not_nan.
Qed.

Lemma shape_fmap {A B : Type} (f : A → B) (a : list (list A)) :
  shape (fmap (M:=list) f <$> a) = shape a.
Proof.
  unfold shape. rewrite length_fmap. destruct a as [|row a]; simpl; [done|].
  by rewrite length_fmap.
Qed.

Lemma index2_first_row {A : Type} (a : list (list A)) (t : nat) :
  index2 a 0 t = head a ≫= (.!! t).
Proof. unfold index2. by rewrite head_lookup. Qed.

Lemma index2_is_Some {A : Type} (a : list (list A)) (t : nat) :
  (t < (shape a).2)%nat → is_Some (index2 a 0 t).
Proof.
  unfold shape, index2. destruct a as [|row a]; simpl; [lia|].
  apply lookup_lt_is_Some.
Qed.

(** The loop never counts more points than the steps it was given. *)
Lemma for_range_curve_length (box : Box) (lons lats : list (list float))
    (days : list (list Z)) (ts : list nat) (st s : Analysis) :
  for_range (body box lons lats days) ts st = Some s →
  (length (curve s) ≤ length (curve st) + length ts)%nat.
Proof.
  revert st. induction ts as [|t ts IH]; intros st; simpl.
  { intros [= <-]. lia. }
  destruct (body box lons lats days t st) as [[st'|st']|] eqn:Hbody; [| |done].
  - intros Hrun%IH.
    apply body_Next in Hbody as (_ & _ & _ & Hc & _).
    rewrite Hc, length_app in Hrun. simpl in Hrun. lia.
  - apply body_Break in Hbody as [-> _]. intros [= <-]. lia.
Qed.

(** The guard [if np.isnan(day): break] never fires: a day that was read
    is not NaN. *)
Lemma body_never_breaks (box : Box) (lons lats : list (list float))
    (days : list (list Z)) (t : nat) (st st' : Analysis) :
  body box lons lats days t st ≠ Some (Break st').
Proof.
  intros (_ & day & Hday & Hnan)%body_Break.
  apply day_of_not_nan in Hday. congruence.
Qed.

(** A step whose day cannot be read makes every run that reaches past it
    raise. *)
Lemma run_undefined_day (box : Box) (ds : Dataset) (t k : nat) :
  (t < k)%nat → day_at ds t = None → run box ds k = None.
Proof.
  intros Hlt Hday. unfold run.
  destruct (days_traj (time_vals ds)) as [days|] eqn:Hdays; simpl; [|done].
  rewrite (day_at_days _ _ _ Hdays) in Hday.
  replace k with (t + S (k - S t))%nat by lia.
  rewrite seq_app. simpl.
  apply for_range_None_at.
  - intros t' st st'. apply body_never_breaks.
  - intros st. unfold body. by rewrite Hday.
Qed.

Lemma run_curve_length (box : Box) (ds : Dataset) (k : nat) (s : Analysis) :
  run box ds k = Some s → (length (curve s) ≤ k)%nat.
Proof.
  intros (days & _ & Hrun%for_range_curve_length)%run_Some.
  by rewrite length_seq in Hrun.
Qed.

Lemma run_recorded_ok (box : Box) (ds : Dataset) (k : nat) (s : Analysis) :
  run box ds k = Some s → recorded_ok s.
Proof.
  intros (days & _ & Hrun)%run_Some.
  eapply for_range_ind; [|apply analysis_init_ok|exact Hrun].
  intros t st fl _. apply body_recorded_ok.
Qed.

Lemma for_range_body_extends (box : Box) (lons lats : list (list float))
    (days : list (list Z)) (ts : list nat) (st s : Analysis) :
  for_range (body box lons lats days) ts st = Some s → extends st s.
Proof.
  apply for_range_ind; [|apply extends_refl].
  intros t st' fl _ Hext Hbody. eapply extends_trans; [done|].
  by eapply body_extends.
Qed.

(** On a rectangular store the analysis raises no error as long as the
    days of its steps can be read, whatever the positions stored. *)
Lemma run_total (box : Box) (ds : Dataset) (k : nat) :
  rectangular ds → (0 < (shape ds).2)%nat → (k ≤ (shape ds).2)%nat →
  (∀ t, (t < k)%nat → is_Some (day_at ds t)) →
  is_Some (run box ds k).
Proof.
  intros Hrect Hpos Hk Hdays. unfold run.
  destruct (index2_is_Some (time_vals ds) 0) as [t00 Ht00].
  { unfold time_vals. by rewrite shape_fmap. }
  destruct (days_traj (time_vals ds)) as [days|] eqn:Hd; simpl;
    [|unfold days_traj in Hd; by rewrite Ht00 in Hd].
  apply for_range_is_Some. intros t st Ht%elem_of_seq.
  assert (∀ g : Obs → float, is_Some (column (fmap (M:=list) g <$> ds) t)) as Hcol.
  { intros g. apply column_is_Some, Forall_fmap.
    eapply Forall_impl; [exact Hrect|]. intros row Hrow. simpl.
    rewrite length_fmap, Hrow. lia. }
  apply body_is_Some; [|apply Hcol..].
  rewrite <- (day_at_days _ _ _ Hd). apply Hdays. lia.
Qed.

Lemma analyse_total (box : Box) (ds : Dataset) :
  rectangular ds → (0 < (shape ds).2)%nat →
  (∀ t, (t < (shape ds).2)%nat → is_Some (day_at ds t)) →
  is_Some (analyse box ds).
Proof.
  intros Hrect Hpos Hdays. unfold analyse, lon_traj. rewrite shape_fmap.
  by apply run_total.
Qed.

(** Stores that agree on the positions and on the first row of [time] are
    analysed alike. *)
Lemma analyse_first_row (box : Box) (ds ds' : Dataset) :
  lon_traj ds' = lon_traj ds → lat_traj ds' = lat_traj ds →
  head (time_vals ds') = head (time_vals ds) →
  analyse box ds' = analyse box ds.
Proof.
  intros Hlon Hlat Htime. unfold analyse, run. rewrite Hlon, Hlat.
  unfold days_traj. rewrite !index2_first_row, Htime.
  destruct (head (time_vals ds) ≫= (.!! 0%nat)) as [t00|]; simpl; [|done].
  apply for_range_ext. intros t' st _. unfold body, day_of.
  by rewrite !index2_fmap, !index2_first_row, Htime.
Qed.

(** ** The loop, one step more *)

(** One more step of the loop: either every step so far has recorded a
    point and the body runs once more, or the loop has already left by
    [break] and nothing changes. *)
Lemma for_range_body_snoc (box : Box) (lons lats : list (list float))
    (days : list (list Z))
    (ts : list nat) (t : nat) (st s' : Analysis) :
  for_range (body box lons lats days) (ts ++ [t]) st = Some s' →
  ∃ s, for_range (body box lons lats days) ts st = Some s
    ∧ ((length (curve s) = length (curve st) + length ts)%nat
       ∧ (∃ fl, body box lons lats days t s = Some fl ∧ flow_state fl = s')
       ∨ (length (curve s) < length (curve st) + length ts)%nat ∧ s' = s).
Proof.
  revert st. induction ts as [|a ts IH]; intros st; simpl.
  - intros H. exists st. split; [done|]. left. split; [lia|].
    destruct (body box lons lats days t st) as [[s|s]|]; [| |done];
      injection H as <-; by eexists.
  - destruct (body box lons lats days a st) as [[st1|st1]|] eqn:Hbody; [| |done].
    + intros (s & Hs & Hcase)%IH. exists s. split; [done|].
      apply body_Next in Hbody as (_ & _ & _ & Hc & _).
      rewrite Hc, length_app in Hcase. simpl in Hcase.
      destruct Hcase as [[? ?]|[? ?]]; [left|right]; split; (done || lia).
    + intros [= <-]. exists st1. split; [done|]. right.
      apply body_Break in Hbody as [-> _]. split; [lia|done].
Qed.

Lemma run_S (box : Box) (ds : Dataset) (k : nat) (s' : Analysis) :
  run box ds (S k) = Some s' →
  ∃ days s, days_traj (time_vals ds) = Some days ∧ run box ds k = Some s
    ∧ (length (curve s) = k
       ∧ (∃ fl, body box (lon_traj ds) (lat_traj ds) days k s = Some fl
                ∧ flow_state fl = s')
       ∨ (length (curve s) < k)%nat ∧ s' = s).
Proof.
  intros (days & Hdays & Hrun)%run_Some.
  rewrite seq_S in Hrun. simpl in Hrun.
  apply for_range_body_snoc in Hrun as (s & Hs & Hcase).
  rewrite length_seq in Hcase. simpl in Hcase.
  exists days, s. split; [done|]. split; [|done].
  apply run_Some. eauto.
Qed.

(** Every step of a run that returns records its point. *)
Lemma run_length (box : Box) (ds : Dataset) (k : nat) (s : Analysis) :
  run box ds k = Some s → length (curve s) = k.
Proof.
  revert s. induction k as [|k IH]; intros s.
  { by intros (days & _ & [= <-])%run_Some. }
  intros Hrun.
  destruct (run_S _ _ _ _ Hrun) as (days & s0 & Hdays & Hs0 & Hcase).
  pose proof (IH _ Hs0) as Hlen0.
  destruct Hcase as [[_ (fl & Hbody & <-)]|[? _]]; [|lia].
  destruct fl as [st|st]; [|by apply body_never_breaks in Hbody].
  apply body_Next in Hbody as (_ & _ & _ & Hc & _).
  simpl. rewrite Hc, length_app. simpl. lia.
Qed.

(** ** The claims about the capture analysis *)

(** C1: across the steps of the loop, in increasing order, the set of
    captured particles only grows (a particle captured after [j] steps is
    still captured after any [k >= j] steps, so none is ever removed), its
    size does not decrease, the curve is only appended to, and the counts
    recorded are in non-decreasing order. *)
Theorem capture_monotone (box : Box) (ds : Dataset) (j k : nat)
    (s1 s2 : Analysis) :
  (j ≤ k)%nat → run box ds j = Some s1 → run box ds k = Some s2 →
  captured_ids s1 ⊆ captured_ids s2
  ∧ (size (captured_ids s1) ≤ size (captured_ids s2))%nat
  ∧ curve s1 `prefix_of` curve s2
  ∧ StronglySorted le (curve s2).
Proof.
  intros Hjk Hj Hk.
  pose proof (run_recorded_ok _ _ _ _ Hk) as [Hsorted _ _ _].
  apply run_Some in Hj as (days & Hdays & Hj).
  apply run_Some in Hk as (days' & Hdays' & Hk).
  assert (days' = days) as -> by congruence.
  replace k with (j + (k - j))%nat in Hk by lia. rewrite seq_app in Hk.
  assert (extends s1 s2) as [Hsub Hpre _].
  { destruct (for_range_app_inv _ _ _ _ _ _ Hj Hk) as [Hrest| ->].
    - by eapply for_range_body_extends.
    - apply extends_refl. }
  repeat split; [done | by apply subseteq_size | done | done].
Qed.

Lemma capture_monotone_witness :
  let s1 := mkAnalysis ∅ [0%nat] [0] in
  let s2 := mkAnalysis {[0%nat]} [0%nat; 1%nat; 1%nat] [0; 30; 60] in
  captured_ids s1 ⊆ captured_ids s2
  ∧ (size (captured_ids s1) ≤ size (captured_ids s2))%nat
  ∧ curve s1 `prefix_of` curve s2
  ∧ StronglySorted le (curve s2).
Proof.
  apply (capture_monotone unit_box scenario_store 1 3);
    [lia | vm_compute; reflexivity | vm_compute; reflexivity].
Defined.

(** C2: the scenario with one particle, the box [0,1] x [0,1] and the
    threshold of 30 days: recorded outside the box on day 0 and at
    (0.5, 0.5) on days 30 and 60, the particle yields the curve
    (0,0), (30,1), (60,1) and the final set {0}. *)
Theorem scenario_single_particle :
  (day_at scenario_store <$> [0; 1; 2]%nat) = [Some 0; Some 30; Some 60]
  ∧ ∃ r, analyse unit_box scenario_store = Some r
         ∧ cumulative_curve r = [(0, 0%nat); (30, 1%nat); (60, 1%nat)]
         ∧ captured_ids r = {[0%nat]}.
Proof.
  split; [vm_compute; reflexivity|].
  exists (mkAnalysis {[0%nat]} [0; 1; 1]%nat [0; 30; 60]).
  repeat split; vm_compute; reflexivity.
Qed.

(** C6: an undefined day does not end the loop quietly.  The decoded time
    axis marks a missing time by NaT; the subtraction and the two
    divisions keep it, and [float(days_traj[0, t])] raises [TypeError] on
    it before [np.isnan(day)] is evaluated.  So when the first particle
    has no time at a step [t] of the loop, the day of that step cannot be
    read and the analysis raises, as does every run that goes past [t];
    it does not return what the steps before [t] recorded, which on a
    rectangular store whose earlier days can be read is a curve of [t]
    points; and no pass through the body ever leaves by [break]. *)
Theorem undefined_day_raises (box : Box) (ds : Dataset) (t : nat) :
  (t < (shape (lon_traj ds)).2)%nat →
  index2 (time_vals ds) 0 t = Some NaT →
  day_at ds t = None
  ∧ analyse box ds = None
  ∧ (∀ k, (t < k)%nat → run box ds k = None)
  ∧ (rectangular ds → (∀ t', (t' < t)%nat → is_Some (day_at ds t')) →
     ∃ s, run box ds t = Some s ∧ length (curve s) = t)
  ∧ (∀ days t' st st',
       body box (lon_traj ds) (lat_traj ds) days t' st ≠ Some (Break st')).
Proof.
  intros Hlt Hx. pose proof (day_at_NaT ds t Hx) as Hday.
  split; [done|]. split; [by apply (run_undefined_day box ds t)|].
  split; [intros k Hk; by apply (run_undefined_day box ds t)|].
  split.
  - intros Hrect Hdays. unfold lon_traj in Hlt. rewrite shape_fmap in Hlt.
    destruct (run_total box ds t Hrect) as [s Hs]; [lia|lia|done|].
    exists s. split; [done|]. by eapply run_length.
  - intros days t' st st'. apply body_never_breaks.
Qed.

Lemma undefined_day_raises_witness :
  day_at gap_store 1 = None
  ∧ analyse unit_box gap_store = None
  ∧ (∀ k, (1 < k)%nat → run unit_box gap_store k = None)
  ∧ (rectangular gap_store →
     (∀ t', (t' < 1)%nat → is_Some (day_at gap_store t')) →
     ∃ s, run unit_box gap_store 1 = Some s ∧ length (curve s) = 1%nat)
  ∧ (∀ days t' st st',
       body unit_box (lon_traj gap_store) (lat_traj gap_store) days t' st
       ≠ Some (Break st')).
Proof.
  apply (undefined_day_raises unit_box gap_store 1);
    [vm_compute; lia | reflexivity].
Defined.

(** C10: the day axis comes from the first particle alone, and a missing
    time of the first particle makes the analysis raise rather than stop.
    Stores that agree on the positions and on the first row of [time] are
    analysed alike.  On [broken_axis_store] the first particle has no
    observation at step 1 while the second is recorded throughout: the day
    of step 1 cannot be read, the run over step 0 alone records one point
    and the analysis raises; with the two particles exchanged the axis is
    whole and the analysis returns its three points.  The days read are
    whole numbers: 12 hours after the start is day 0 and 36 hours is
    day 1. *)
Theorem day_axis_first_particle_raises :
  (∀ box ds ds', lon_traj ds' = lon_traj ds → lat_traj ds' = lat_traj ds →
     head (time_vals ds') = head (time_vals ds) →
     analyse box ds' = analyse box ds)
  ∧ (day_at broken_axis_store <$> [0; 1; 2]%nat) = [Some 0; None; Some 60]
  ∧ run unit_box broken_axis_store 1 = Some (mkAnalysis ∅ [0%nat] [0])
  ∧ analyse unit_box broken_axis_store = None
  ∧ analyse unit_box (reverse broken_axis_store)
    = Some (mkAnalysis {[0%nat]} [0; 1; 1]%nat [0; 30; 60])
  ∧ (day_at half_day_store <$> [0; 1; 2]%nat) = [Some 0; Some 0; Some 1].
Proof.
  split; [intros box ds ds'; apply analyse_first_row|].
  repeat split; vm_compute; reflexivity.
Qed.

(** One pass of the loop seen from outside: the state after [t + 1] steps
    is what the body, run at [t] on the state after [t] steps, falls
    through with. *)
Lemma run_step (box : Box) (ds : Dataset) (t : nat) (s s' : Analysis) :
  run box ds t = Some s → run box ds (S t) = Some s' →
  ∃ days, days_traj (time_vals ds) = Some days
    ∧ body box (lon_traj ds) (lat_traj ds) days t s = Some (Next s').
Proof.
  intros (days & Hdays & Ht)%run_Some (days' & Hdays' & HSt)%run_Some.
  assert (days' = days) as -> by congruence.
  exists days. split; [done|].
  rewrite seq_S in HSt. simpl in HSt.
  rewrite (for_range_snoc _ _ _ _ s) in HSt; [| |done].
  - apply fmap_Some in HSt as ([st|st] & Hfl & ->); [done|].
    by apply body_never_breaks in Hfl.
  - intros t' st st' _. apply body_never_breaks.
Qed.

(** C7: the comparisons are inclusive.  At a step [t] of the loop, on a
    day at or above 30 (30 itself included) the particles in the set
    afterwards are those that were in it before and those whose position
    at [t] satisfies lon_min <= lon <= lon_max and
    lat_min <= lat <= lat_max, the four edges included, each bound being
    the float32 that numpy compares the float32 coordinate with; on a day
    strictly below 30 the set is left as it is.  With the bounds as they
    are written: for the box of the script, and for every box whose bounds
    are float32 numbers, a particle whose longitude is a float32 number
    and whose position satisfies the four inequalities on such a day is
    in the set afterwards. *)
Theorem capture_inclusive (box : Box) (ds : Dataset) (t : nat) (day : float)
    (s s' : Analysis) :
  day_at ds t = Some day →
  run box ds t = Some s → run box ds (S t) = Some s' →
  ((30 <=? day) = true →
     ∀ p, p ∈ captured_ids s' ↔
          p ∈ captured_ids s
          ∨ ∃ x y, index2 (lon_traj ds) p t = Some x
                   ∧ index2 (lat_traj ds) p t = Some y
                   ∧ (to_f32 (lon_min box) <=? x) = true
                   ∧ (x <=? to_f32 (lon_max box)) = true
                   ∧ (to_f32 (lat_min box) <=? y) = true
                   ∧ (y <=? to_f32 (lat_max box)) = true)
  ∧ ((day <? 30) = true → captured_ids s' = captured_ids s)
  ∧ (box = AMP_BOX
     ∨ (to_f32 (lon_min box) = lon_min box ∧ to_f32 (lon_max box) = lon_max box
        ∧ to_f32 (lat_min box) = lat_min box
        ∧ to_f32 (lat_max box) = lat_max box) →
     (30 <=? day) = true →
     ∀ p x y, index2 (lon_traj ds) p t = Some x →
              index2 (lat_traj ds) p t = Some y →
              to_f32 x = x →
              (lon_min box <=? x) = true → (x <=? lon_max box) = true →
              (lat_min box <=? y) = true → (y <=? lat_max box) = true →
              p ∈ captured_ids s').
Proof.
  intros Hday Hs Hs'.
  destruct (run_step _ _ _ _ _ Hs Hs') as (days & Hdays & Hbody).
  rewrite (day_at_days _ _ _ Hdays) in Hday.
  apply body_Next in Hbody as (day' & Hday' & _ & _ & _ & Hin).
  assert (day' = day) as -> by congruence.
  split; [|split].
  - intros Hge p. rewrite Hin, Hge. unfold in_box_at.
    setoid_rewrite inside_true. naive_solver.
  - intros Hlt%F64.ltb_leb_false. apply set_eq. intros p.
    rewrite Hin, Hlt. naive_solver.
  - intros Hbox Hge p x y Hx Hy Hf32 H1 H2 H3 H4.
    apply Hin. right. split; [done|]. exists x, y.
    split; [done|]. split; [done|].
    destruct Hbox as [->|(E1 & E2 & E3 & E4)].
    + by apply amp_box_written_bounds.
    + rewrite inside_true, E1, E2, E3, E4. done.
Qed.

Lemma capture_inclusive_witness :
  let s := mkAnalysis ∅ [0%nat] [0] in
  let s' := mkAnalysis {[0%nat]} [0%nat; 1%nat] [0; 30] in
  ((30 <=? 30) = true →
     ∀ p, p ∈ captured_ids s' ↔
          p ∈ captured_ids s
          ∨ ∃ x y, index2 (lon_traj amp_corner_store) p 1 = Some x
                   ∧ index2 (lat_traj amp_corner_store) p 1 = Some y
                   ∧ (to_f32 (lon_min AMP_BOX) <=? x) = true
                   ∧ (x <=? to_f32 (lon_max AMP_BOX)) = true
                   ∧ (to_f32 (lat_min AMP_BOX) <=? y) = true
                   ∧ (y <=? to_f32 (lat_max AMP_BOX)) = true)
  ∧ ((30 <? 30) = true → captured_ids s' = captured_ids s)
  ∧ (AMP_BOX = AMP_BOX
     ∨ (to_f32 (lon_min AMP_BOX) = lon_min AMP_BOX
        ∧ to_f32 (lon_max AMP_BOX) = lon_max AMP_BOX
        ∧ to_f32 (lat_min AMP_BOX) = lat_min AMP_BOX
        ∧ to_f32 (lat_max AMP_BOX) = lat_max AMP_BOX) →
     (30 <=? 30) = true →
     ∀ p x y, index2 (lon_traj amp_corner_store) p 1 = Some x →
              index2 (lat_traj amp_corner_store) p 1 = Some y →
              to_f32 x = x →
              (lon_min AMP_BOX <=? x) = true → (x <=? lon_max AMP_BOX) = true →
              (lat_min AMP_BOX <=? y) = true → (y <=? lat_max AMP_BOX) = true →
              p ∈ captured_ids s').
Proof.
  apply (capture_inclusive AMP_BOX amp_corner_store 1 30);
    vm_compute; reflexivity.
Defined.


(** ** The candidate cells and the seeds *)

Lemma elem_of_true_cells (m : list (list bool)) (i a b : nat) :
  (a, b) ∈ true_cells i m ↔ (i ≤ a)%nat ∧ index2 m (a - i) b = Some true.
Proof.
  revert i. induction m as [|row m IH]; intros i; simpl.
  { split; [by intros ?%elem_of_nil | by intros [_ ?]]. }
  rewrite elem_of_app, list_elem_of_fmap, IH. split.
  - intros [(j & [= -> ->] & Hj%elem_of_where1)|[Hle Hcell]].
    + split; [lia|]. by rewrite Nat.sub_diag.
    + split; [lia|]. by replace (a - i)%nat with (S (a - S i)) by lia.
  - intros [Hle Hcell]. destruct (decide (a = i)) as [->|Hne].
    + left. exists b. rewrite Nat.sub_diag in Hcell.
      split; [done|]. by apply elem_of_where1.
    + right. split; [lia|].
      by replace (a - i)%nat with (S (a - S i)) in Hcell by lia.
Qed.

Lemma NoDup_where1 (b : list bool) : NoDup (where1 b).
Proof. unfold where1. apply NoDup_filter, NoDup_seq. Qed.

Lemma NoDup_true_cells (m : list (list bool)) (i : nat) :
  NoDup (true_cells i m).
Proof.
  revert i. induction m as [|row m IH]; intros i; simpl; [constructor|].
  apply NoDup_app. split; [|split; [|apply IH]].
  - apply NoDup_fmap_2; [|apply NoDup_where1]. by intros ?? [= ->].
  - intros [a b] (j & [= -> ->] & _)%list_elem_of_fmap [Hle _]%elem_of_true_cells.
    lia.
Qed.

Lemma take_indices_lookup {A : Type} (a : list A) (idx : list nat)
    (k : list A) (n : nat) :
  take_indices a idx = Some k → k !! n = idx !! n ≫= (a !!.).
Proof.
  unfold take_indices. intros H%mapM_Some.
  destruct (idx !! n) as [i|] eqn:Hi; simpl.
  - by destruct (Forall2_lookup_l _ _ _ _ _ H Hi) as (y & -> & ->).
  - apply lookup_ge_None. apply lookup_ge_None in Hi.
    by rewrite <- (Forall2_length _ _ _ H).
Qed.

Lemma take_indices_length {A : Type} (a : list A) (idx : list nat) (k : list A) :
  take_indices a idx = Some k → length k = length idx.
Proof. intros H. symmetry. by eapply length_mapM. Qed.

Lemma take_indices_is_Some {A : Type} (a : list A) (idx : list nat) :
  Forall (λ i, i < length a)%nat idx → is_Some (take_indices a idx).
Proof.
  intros H. apply mapM_is_Some. eapply Forall_impl; [exact H|].
  intros i Hi. by apply lookup_lt_is_Some.
Qed.

Lemma take_indices_elem_of {A : Type} (a : list A) (idx : list nat)
    (k : list A) (x : A) :
  take_indices a idx = Some k → x ∈ k →
  ∃ i, i ∈ idx ∧ a !! i = Some x.
Proof.
  intros H (n & Hn)%list_elem_of_lookup.
  rewrite (take_indices_lookup _ _ _ _ H) in Hn.
  apply bind_Some in Hn as (i & Hi & Hx).
  exists i. split; [|done]. by eapply list_elem_of_lookup_2.
Qed.

Lemma take_indices_NoDup {A : Type} (a : list A) (idx : list nat) (k : list A) :
  NoDup a → NoDup idx → take_indices a idx = Some k → NoDup k.
Proof.
  intros Ha Hidx H. apply NoDup_alt. intros n n' x Hn Hn'.
  rewrite (take_indices_lookup _ _ _ n H) in Hn.
  rewrite (take_indices_lookup _ _ _ n' H) in Hn'.
  apply bind_Some in Hn as (i & Hi & Hx).
  apply bind_Some in Hn' as (i' & Hi' & Hx').
  simpl in Hx, Hx'.
  assert (i = i') as <- by (by eapply (NoDup_lookup a)).
  by eapply (NoDup_lookup idx).
Qed.

(** Reading the rows and the columns of a list of cells at the same
    indices is reading the cells. *)
Lemma take_indices_zip {A B : Type} (c : list (A * B)) (idx : list nat)
    (ys : list A) (xs : list B) :
  take_indices (c.*1) idx = Some ys → take_indices (c.*2) idx = Some xs →
  take_indices c idx = Some (zip ys xs).
Proof.
  unfold take_indices. revert ys xs.
  induction idx as [|i idx IH]; intros ys xs; simpl.
  { by intros [= <-] [= <-]. }
  rewrite !list_lookup_fmap.
  destruct (c !! i) as [[y x]|]; simpl; [|done].
  destruct (mapM (c.*1 !!.) idx) as [ys'|]; simpl; [|done].
  destruct (mapM (c.*2 !!.) idx) as [xs'|]; simpl; [|done].
  intros [= <-] [= <-]. by rewrite (IH ys' xs').
Qed.

(** The comprehension keeps, in order, the indices whose longitude is
    above -5.5. *)
Lemma safe_among_spec (lons_array : list float) (valid_x ixs r : list nat) :
  safe_among lons_array valid_x ixs = Some r →
  r `sublist_of` ixs
  ∧ ∀ i, i ∈ r ↔
         i ∈ ixs ∧ ∃ x lo, valid_x !! i = Some x ∧ lons_array !! x = Some lo
                           ∧ (-5.5 <? lo) = true.
Proof.
  revert r. induction ixs as [|i ixs IH]; intros r; simpl.
  { intros [= <-]. split; [done|]. intros i. split.
    - by intros ?%elem_of_nil.
    - by intros [?%elem_of_nil _]. }
  intros H. apply bind_Some in H as (x & Hx & H).
  apply bind_Some in H as (lo & Hlo & H).
  apply bind_Some in H as (rest & Hrest & [= <-]).
  destruct (IH rest Hrest) as [Hsub Hin].
  destruct (-5.5 <? lo) eqn:Hsafe.
  - split; [by apply sublist_skip|]. intros j.
    rewrite !elem_of_cons, Hin. split.
    + intros [->|[? ?]]; [|split; [by right | done]].
      split; [by left|]. by exists x, lo.
    + intros [[->|?] ?]; [by left | by right].
  - split; [by apply sublist_cons|]. intros j.
    rewrite elem_of_cons, Hin. split.
    + intros [? ?]. split; [by right | done].
    + intros [[->|?] Hex]; [|by split].
      destruct Hex as (x' & lo' & Hx' & Hlo' & Hs). congruence.
Qed.

Lemma safe_among_is_Some (lons_array : list float) (valid_x ixs : list nat) :
  Forall (λ i, ∃ x, valid_x !! i = Some x ∧ x < length lons_array)%nat ixs →
  is_Some (safe_among lons_array valid_x ixs).
Proof.
  induction 1 as [|i ixs (x & Hx & Hlt) _ [rest Hrest]]; simpl; [done|].
  rewrite Hx. simpl.
  destruct (lookup_lt_is_Some_2 lons_array x Hlt) as [lo ->]. simpl.
  by rewrite Hrest.
Qed.

Lemma take_indices_elem_of_2 {A : Type} (a : list A) (idx : list nat)
    (k : list A) (i : nat) (x : A) :
  take_indices a idx = Some k → i ∈ idx → a !! i = Some x → x ∈ k.
Proof.
  intros H (n & Hn)%list_elem_of_lookup Hx.
  apply (list_elem_of_lookup_2 _ n).
  by rewrite (take_indices_lookup _ _ _ n H), Hn.
Qed.

Lemma take_indices_seq {A : Type} (a : list A) :
  take_indices a (seq 0 (length a)) = Some a.
Proof.
  unfold take_indices. apply mapM_Some, Forall2_same_length_lookup.
  split; [by rewrite length_seq|].
  intros n i x [-> _]%lookup_seq Hx. done.
Qed.

(** A cell of the coastal mask lies over a cell of the sample. *)
Lemma mask_coastal_inside (uo_sample : list (list float)) (a b : nat) (c : bool) :
  index2 (mask_coastal uo_sample) a b = Some c →
  ∃ row, uo_sample !! a = Some row ∧ (b < length row)%nat
         ∧ index2 (mask_land uo_sample) a b = Some false ∨ c = false.
Proof.
  unfold index2, mask_coastal. intros H.
  apply bind_Some in H as (crow & Hcrow & Hc).
  apply lookup_zip_with_Some in Hcrow as (drow & lrow & -> & _ & Hlrow).
  apply lookup_zip_with_Some in Hc as (d & l & -> & _ & Hl).
  unfold mask_land in Hlrow. rewrite list_lookup_fmap in Hlrow.
  apply fmap_Some in Hlrow as (row & Hrow & ->).
  exists row. destruct l; [right; by destruct d|]. left.
  split; [done|]. split.
  - apply lookup_lt_Some in Hl. by rewrite length_fmap in Hl.
  - unfold mask_land. by rewrite list_lookup_fmap, Hrow.
Qed.

(** What the seeder returns, for use by the steps that follow it. *)
Lemma indices_sample (rnd : list nat) (P N : nat) :
  ∃ l, indices rnd P N = Some l
       ∧ length l = (N `min` P)%nat ∧ NoDup l
       ∧ Forall (λ i, i < P)%nat l
       ∧ ((P ≤ N)%nat → l = seq 0 P).
Proof.
  unfold indices, random_choice, arange.
  destruct (decide (N < P)%nat) as [Hlt|Hge].
  - rewrite decide_True by lia. eexists. split; [done|].
    split; [|split; [|split]].
    + rewrite draw_length, length_seq. lia.
    + auto using draw_NoDup, NoDup_seq.
    + apply Forall_forall. intros i Hi%draw_elem_of%elem_of_seq. lia.
    + lia.
  - eexists. split; [done|]. split; [|split; [|split]].
    + rewrite length_seq. lia.
    + apply NoDup_seq.
    + apply Forall_forall. intros i Hi%elem_of_seq. lia.
    + done.
Qed.

(** The candidates, as cells: the true cells of the coastal mask read at
    the safe indices. *)
Lemma coastal_candidates_cells (lons_array : list float)
    (uo_sample : list (list float)) (vy vx : list nat) :
  coastal_candidates lons_array uo_sample = Some (vy, vx) →
  ∃ safe, safe_indices lons_array (true_cells 0 (mask_coastal uo_sample)).*2
            = Some safe
    ∧ take_indices (true_cells 0 (mask_coastal uo_sample)) safe
        = Some (zip vy vx)
    ∧ length vy = length safe ∧ length vx = length safe.
Proof.
  unfold coastal_candidates, where2. simpl. intros H.
  apply bind_Some in H as (safe & Hsafe & H).
  apply bind_Some in H as (vy' & Hvy & H).
  apply bind_Some in H as (vx' & Hvx & [= <- <-]).
  exists safe. split; [done|]. split; [by apply take_indices_zip|].
  split; by eapply take_indices_length.
Qed.

Lemma coastal_candidates_sound (lons_array : list float)
    (uo_sample : list (list float)) (vy vx : list nat) :
  coastal_candidates lons_array uo_sample = Some (vy, vx) →
  length vy = length vx
  ∧ NoDup (zip vy vx)
  ∧ ∀ a b, (a, b) ∈ zip vy vx ↔
           index2 (mask_coastal uo_sample) a b = Some true
           ∧ ∃ lo, lons_array !! b = Some lo ∧ (-5.5 <? lo) = true.
Proof.
  intros (safe & Hsafe & Hzip & Hvy & Hvx)%coastal_candidates_cells.
  set (c := true_cells 0 (mask_coastal uo_sample)) in *.
  destruct (safe_among_spec _ _ _ _ Hsafe) as [Hsub Hin].
  split; [congruence|]. split.
  { eapply take_indices_NoDup; [apply NoDup_true_cells| |exact Hzip].
    eapply sublist_NoDup; [apply NoDup_seq|exact Hsub]. }
  intros a b. split.
  - intros (i & Hi & Hab)%(take_indices_elem_of _ _ _ _ Hzip).
    apply Hin in Hi as (_ & x & lo & Hx & Hlo & Hs).
    rewrite list_lookup_fmap, Hab in Hx. injection Hx as <-.
    apply list_elem_of_lookup_2, elem_of_true_cells in Hab as [_ Hab].
    rewrite Nat.sub_0_r in Hab. eauto.
  - intros [Hab (lo & Hlo & Hs)].
    assert ((a, b) ∈ c) as (i & Hi)%list_elem_of_lookup.
    { apply elem_of_true_cells. split; [lia|]. by rewrite Nat.sub_0_r. }
    apply (take_indices_elem_of_2 _ _ _ i _ Hzip); [|done].
    apply Hin. split.
    + apply elem_of_seq. apply lookup_lt_Some in Hi.
      rewrite length_fmap. lia.
    + exists b, lo. by rewrite list_lookup_fmap, Hi.
Qed.

Lemma coastal_candidates_total (lons_array : list float)
    (uo_sample : list (list float)) :
  Forall (λ row, length row ≤ length lons_array)%nat uo_sample →
  is_Some (coastal_candidates lons_array uo_sample).
Proof.
  intros Hgrid. set (c := true_cells 0 (mask_coastal uo_sample)).
  assert (∀ i x, c.*2 !! i = Some x → (x < length lons_array)%nat) as Hcol.
  { intros i x Hx. rewrite list_lookup_fmap in Hx.
    apply fmap_Some in Hx as ([a b] & Hab & ->). simpl.
    apply list_elem_of_lookup_2, elem_of_true_cells in Hab as [_ Hab].
    rewrite Nat.sub_0_r in Hab.
    destruct (mask_coastal_inside _ _ _ _ Hab) as (row & [(Hrow & Hlt & _)|?]);
      [|done].
    eapply Forall_lookup_1 in Hgrid; [|exact Hrow]. simpl in Hgrid. lia. }
  destruct (safe_among_is_Some lons_array (c.*2) (seq 0 (length (c.*2))))
    as [safe Hsafe].
  { apply Forall_forall. intros i Hi%elem_of_seq.
    destruct (lookup_lt_is_Some_2 (c.*2) i) as [x Hx]; [lia|]. eauto. }
  destruct (safe_among_spec _ _ _ _ Hsafe) as [_ Hin].
  assert (Forall (λ i, i < length c)%nat safe) as Hlt.
  { apply Forall_forall. intros i [Hi%elem_of_seq _]%Hin.
    rewrite length_fmap in Hi. lia. }
  destruct (take_indices_is_Some (c.*1) safe) as [vy Hvy];
    [by rewrite length_fmap|].
  destruct (take_indices_is_Some (c.*2) safe) as [vx Hvx];
    [by rewrite length_fmap|].
  exists (vy, vx). unfold coastal_candidates, where2. simpl. fold c.
  unfold safe_indices. rewrite Hsafe. simpl. by rewrite Hvy, Hvx.
Qed.

(** X1: when every row of the sample has a longitude for each of its
    columns, the filter raises no error and leaves, each once, exactly the
    cells of the coastal band whose longitude is strictly above -5.5, as
    two arrays of one length. *)
Theorem coastal_candidates_spec (lons_array : list float)
    (uo_sample : list (list float)) :
  Forall (λ row, length row ≤ length lons_array)%nat uo_sample →
  ∃ vy vx, coastal_candidates lons_array uo_sample = Some (vy, vx)
    ∧ length vy = length vx
    ∧ NoDup (zip vy vx)
    ∧ ∀ a b, (a, b) ∈ zip vy vx ↔
             index2 (mask_coastal uo_sample) a b = Some true
             ∧ ∃ lo, lons_array !! b = Some lo ∧ (-5.5 <? lo) = true.
Proof.
  intros Hgrid.
  destruct (coastal_candidates_total _ _ Hgrid) as [[vy vx] Hcand].
  exists vy, vx. split; [done|].
  by apply (coastal_candidates_sound lons_array).
Qed.

Lemma coastal_candidates_spec_witness :
  ∃ vy vx,
    coastal_candidates [-6; -5.5; -5.4; 0] [[0; 1; 1; 1]; [1; 1; 1; 1]]
      = Some (vy, vx)
    ∧ length vy = length vx
    ∧ NoDup (zip vy vx)
    ∧ ∀ a b, (a, b) ∈ zip vy vx ↔
             index2 (mask_coastal [[0; 1; 1; 1]; [1; 1; 1; 1]]) a b = Some true
             ∧ ∃ lo, [-6; -5.5; -5.4; 0] !! b = Some lo ∧ (-5.5 <? lo) = true.
Proof.
  apply (coastal_candidates_spec [-6; -5.5; -5.4; 0] [[0; 1; 1; 1]; [1; 1; 1; 1]]).
  repeat constructor.
Defined.

(** Between two negative numbers of one binade: what is above the smaller
    mantissa's number is not below the larger one's. *)
Lemma SFltb_between_negative (m1 m2 : positive) (e0 : Z) (f : spec_float) :
  (m1 < m2)%positive →
  SFltb (S754_finite true m1 e0) f = true →
  SFltb f (S754_finite true m2 e0) = false.
Proof.
  intros Hm. unfold SFltb.
  destruct f as [[]|[]| |[] m e]; simpl; try done.
  rewrite !Pos.compare_cont_spec. unfold Pos.switch_Eq.
  destruct (Z.compare_spec e0 e) as [<-|Hlt|Hgt]; [| done |].
  - rewrite Z.compare_refl.
    destruct (Pos.compare_spec m1 m) as [<-|Hlt|Hgt]; simpl; try done.
    intros _.
    destruct (Pos.compare_spec m m2) as [->|Hlt'|Hgt']; simpl; try done; lia.
  - intros _. destruct (Z.compare_spec e e0) as [->|Hlt'|Hgt']; try done; lia.
Qed.

(** A longitude above -5.5 is not below -5.8. *)
Lemma east_of_wall (x : float) : (-5.5 <? x) = true → (x <? -5.8) = false.
Proof.
  rewrite !ltb_spec.
  assert (Prim2SF (-5.5) = S754_finite true 6192449487634432 (-50)) as ->
    by (vm_compute; reflexivity).
  assert (Prim2SF (-5.8) = S754_finite true 6530219459687219 (-50)) as ->
    by (vm_compute; reflexivity).
  apply SFltb_between_negative. reflexivity.
Qed.

Lemma seed_cells_Some (rnd : list nat) (NB : nat) (lons_array : list float)
    (uo_sample : list (list float)) (ys xs : list nat) :
  seed_cells rnd NB lons_array uo_sample = Some (ys, xs) ↔
  ∃ vy vx idx, coastal_candidates lons_array uo_sample = Some (vy, vx)
    ∧ indices rnd (length vy) NB = Some idx
    ∧ take_indices vy idx = Some ys ∧ take_indices vx idx = Some xs.
Proof.
  unfold seed_cells. split.
  - intros H. apply bind_Some in H as ([vy vx] & Hcand & H). simpl in H.
    apply bind_Some in H as (idx & Hidx & H).
    apply bind_Some in H as (ys' & Hys & H).
    apply bind_Some in H as (xs' & Hxs & [= <- <-]).
    by exists vy, vx, idx.
  - intros (vy & vx & idx & -> & Hidx & Hys & Hxs). simpl.
    by rewrite Hidx; simpl; rewrite Hys; simpl; rewrite Hxs.
Qed.

Lemma seed_cells_sound (rnd : list nat) (NB : nat) (lons_array : list float)
    (uo_sample : list (list float)) (ys xs : list nat) :
  seed_cells rnd NB lons_array uo_sample = Some (ys, xs) →
  ∃ vy vx, coastal_candidates lons_array uo_sample = Some (vy, vx)
    ∧ length ys = (NB `min` length vy)%nat ∧ length xs = length ys
    ∧ NoDup (zip ys xs)
    ∧ (∀ c, c ∈ zip ys xs → c ∈ zip vy vx)
    ∧ ((length vy ≤ NB)%nat → ys = vy ∧ xs = vx).
Proof.
  intros (vy & vx & idx & Hcand & Hidx & Hys & Hxs)%seed_cells_Some.
  destruct (coastal_candidates_sound _ _ _ _ Hcand) as (Hlen & Hnd & _).
  destruct (indices_sample rnd (length vy) NB) as (l & Hl & Hn & Hdup & _ & Hall).
  assert (l = idx) as -> by congruence.
  assert (take_indices (zip vy vx) idx = Some (zip ys xs)) as Hzip.
  { apply take_indices_zip.
    - rewrite fst_zip by lia. done.
    - rewrite snd_zip by lia. done. }
  exists vy, vx. split; [done|].
  split; [by rewrite (take_indices_length _ _ _ Hys)|].
  split.
  { by rewrite (take_indices_length _ _ _ Hys), (take_indices_length _ _ _ Hxs). }
  split; [by eapply take_indices_NoDup|]. split.
  - intros c (i & _ & Hc)%(take_indices_elem_of _ _ _ _ Hzip).
    by eapply list_elem_of_lookup_2.
  - intros Hle. rewrite (Hall Hle) in Hys, Hxs.
    rewrite take_indices_seq in Hys. rewrite Hlen, take_indices_seq in Hxs.
    split; congruence.
Qed.

Lemma seed_cells_total (rnd : list nat) (NB : nat) (lons_array : list float)
    (uo_sample : list (list float)) :
  Forall (λ row, length row ≤ length lons_array)%nat uo_sample →
  is_Some (seed_cells rnd NB lons_array uo_sample).
Proof.
  intros [[vy vx] Hcand]%coastal_candidates_total.
  destruct (coastal_candidates_sound _ _ _ _ Hcand) as (Hlen & _).
  destruct (indices_sample rnd (length vy) NB) as (idx & Hidx & _ & _ & Hlt & _).
  destruct (take_indices_is_Some vy idx Hlt) as [ys Hys].
  destruct (take_indices_is_Some vx idx) as [xs Hxs]; [by rewrite <- Hlen|].
  exists (ys, xs). apply seed_cells_Some. by exists vy, vx, idx.
Qed.

(** X2: on a sample whose columns all have a longitude, and whatever the
    generator draws, the cells drawn for the particles are min(N, P) of
    the P candidate cells, no cell is drawn twice, and with no more
    candidates than requested particles they are all the candidates, in
    their order. *)
Theorem seed_cells_spec (rnd : list nat) (NB : nat) (lons_array : list float)
    (uo_sample : list (list float)) :
  Forall (λ row, length row ≤ length lons_array)%nat uo_sample →
  ∃ vy vx ys xs,
    coastal_candidates lons_array uo_sample = Some (vy, vx)
    ∧ seed_cells rnd NB lons_array uo_sample = Some (ys, xs)
    ∧ length ys = (NB `min` length vy)%nat ∧ length xs = length ys
    ∧ NoDup (zip ys xs)
    ∧ (∀ c, c ∈ zip ys xs → c ∈ zip vy vx)
    ∧ ((length vy ≤ NB)%nat → ys = vy ∧ xs = vx).
Proof.
  intros Hgrid.
  destruct (seed_cells_total rnd NB _ _ Hgrid) as [[ys xs] Hcells].
  destruct (seed_cells_sound _ _ _ _ _ _ Hcells) as (vy & vx & Hcand & H).
  by exists vy, vx, ys, xs.
Qed.

Lemma seed_cells_spec_witness :
  ∃ vy vx ys xs,
    coastal_candidates [-6; -5.5; -5.4; 0] [[0; 1; 1; 1]; [1; 1; 1; 1]]
      = Some (vy, vx)
    ∧ seed_cells [5; 2]%nat 3 [-6; -5.5; -5.4; 0] [[0; 1; 1; 1]; [1; 1; 1; 1]]
      = Some (ys, xs)
    ∧ length ys = (3 `min` length vy)%nat ∧ length xs = length ys
    ∧ NoDup (zip ys xs)
    ∧ (∀ c, c ∈ zip ys xs → c ∈ zip vy vx)
    ∧ ((length vy ≤ 3)%nat → ys = vy ∧ xs = vx).
Proof.
  apply (seed_cells_spec [5; 2]%nat 3 [-6; -5.5; -5.4; 0]
           [[0; 1; 1; 1]; [1; 1; 1; 1]]).
  repeat constructor.
Defined.

Lemma seeds_Some (rnd : list nat) (NB : nat) (lons_array lats_array : list float)
    (depth_val : float) (uo_sample : list (list float)) (s : Seeds) :
  seeds rnd NB lons_array lats_array depth_val uo_sample = Some s ↔
  ∃ ys xs lons lats,
    seed_cells rnd NB lons_array uo_sample = Some (ys, xs)
    ∧ take_indices lons_array xs = Some lons
    ∧ take_indices lats_array ys = Some lats
    ∧ s = {| seed_lon := lons; seed_lat := lats;
             seed_depth := replicate (length ys) depth_val |}.
Proof.
  unfold seeds. split.
  - intros H. apply bind_Some in H as ([ys xs] & Hcells & H). simpl in H.
    apply bind_Some in H as (lons & Hlons & H).
    apply bind_Some in H as (lats & Hlats & [= <-]).
    by exists ys, xs, lons, lats.
  - intros (ys & xs & lons & lats & -> & Hlons & Hlats & ->). simpl.
    by rewrite Hlons; simpl; rewrite Hlats.
Qed.

(** Every drawn cell is a cell of the coastal band over the sea, with a
    longitude above -5.5. *)
Lemma seed_cells_coastal (rnd : list nat) (NB : nat) (lons_array : list float)
    (uo_sample : list (list float)) (ys xs : list nat) (k a b : nat) :
  seed_cells rnd NB lons_array uo_sample = Some (ys, xs) →
  ys !! k = Some a → xs !! k = Some b →
  index2 (mask_coastal uo_sample) a b = Some true
  ∧ index2 (mask_land uo_sample) a b = Some false
  ∧ (a < length uo_sample)%nat
  ∧ ∃ lo, lons_array !! b = Some lo ∧ (-5.5 <? lo) = true.
Proof.
  intros Hcells Ha Hb.
  destruct (seed_cells_sound _ _ _ _ _ _ Hcells)
    as (vy & vx & Hcand & _ & _ & _ & Hsub & _).
  destruct (coastal_candidates_sound _ _ _ _ Hcand) as (_ & _ & Hin).
  assert ((a, b) ∈ zip vy vx) as [Hc Hlo]%Hin.
  { apply Hsub. apply (list_elem_of_lookup_2 _ k).
    apply lookup_zip_with_Some. by exists a, b. }
  destruct (mask_coastal_inside _ _ _ _ Hc) as (row & [(Hrow & _ & Hland)|?]);
    [|done].
  repeat split; try done. by eapply lookup_lt_Some.
Qed.

(** X3: on a grid with a longitude for every column and a latitude for
    every row of the sample, the seeding raises no error; it hands
    [ParticleSet.from_list] three arrays of one length, one entry per drawn
    cell: the longitude of the cell's column, the latitude of its row and
    the depth [depth_val]. *)
Theorem seeds_spec (rnd : list nat) (NB : nat) (lons_array lats_array : list float)
    (depth_val : float) (uo_sample : list (list float)) :
  Forall (λ row, length row ≤ length lons_array)%nat uo_sample →
  (length uo_sample ≤ length lats_array)%nat →
  ∃ ys xs s,
    seed_cells rnd NB lons_array uo_sample = Some (ys, xs)
    ∧ seeds rnd NB lons_array lats_array depth_val uo_sample = Some s
    ∧ length (seed_lon s) = length ys
    ∧ length (seed_lat s) = length ys
    ∧ seed_depth s = replicate (length ys) depth_val
    ∧ ∀ k a b, ys !! k = Some a → xs !! k = Some b →
        ∃ lo la, lons_array !! b = Some lo ∧ lats_array !! a = Some la
                 ∧ seed_lon s !! k = Some lo ∧ seed_lat s !! k = Some la.
Proof.
  intros Hgrid Hrows.
  destruct (seed_cells_total rnd NB _ _ Hgrid) as [[ys xs] Hcells].
  destruct (seed_cells_sound _ _ _ _ _ _ Hcells) as (_ & _ & _ & _ & Hlen & _).
  destruct (take_indices_is_Some lons_array xs) as [lons Hlons].
  { apply Forall_forall. intros b (k & Hb)%list_elem_of_lookup.
    destruct (lookup_lt_is_Some_2 ys k) as [a Ha].
    { rewrite <- Hlen. by eapply lookup_lt_Some. }
    destruct (seed_cells_coastal _ _ _ _ _ _ _ _ _ Hcells Ha Hb)
      as (_ & _ & _ & lo & Hlo & _).
    by eapply lookup_lt_Some. }
  destruct (take_indices_is_Some lats_array ys) as [lats Hlats].
  { apply Forall_forall. intros a (k & Ha)%list_elem_of_lookup.
    destruct (lookup_lt_is_Some_2 xs k) as [b Hb].
    { rewrite Hlen. by eapply lookup_lt_Some. }
    destruct (seed_cells_coastal _ _ _ _ _ _ _ _ _ Hcells Ha Hb)
      as (_ & _ & Hlt & _).
    lia. }
  exists ys, xs. eexists. split; [done|]. split.
  { apply seeds_Some. by exists ys, xs, lons, lats. }
  simpl. split; [by rewrite (take_indices_length _ _ _ Hlons)|].
  split; [by rewrite (take_indices_length _ _ _ Hlats)|].
  split; [done|].
  intros k a b Ha Hb.
  pose proof (take_indices_lookup _ _ _ k Hlons) as Hlo.
  pose proof (take_indices_lookup _ _ _ k Hlats) as Hla.
  rewrite Hb in Hlo. rewrite Ha in Hla. simpl in Hlo, Hla.
  destruct (lookup_lt_is_Some_2 lons k) as [lo Hlo'].
  { rewrite (take_indices_length _ _ _ Hlons), Hlen. by eapply lookup_lt_Some. }
  destruct (lookup_lt_is_Some_2 lats k) as [la Hla'].
  { rewrite (take_indices_length _ _ _ Hlats). by eapply lookup_lt_Some. }
  exists lo, la. by rewrite <- Hlo, <- Hla.
Qed.

Lemma seeds_spec_witness :
  ∃ ys xs s,
    seed_cells [5; 2]%nat 3 [-6; -5.5; -5.4; 0] [[0; 1; 1; 1]; [1; 1; 1; 1]]
      = Some (ys, xs)
    ∧ seeds [5; 2]%nat 3 [-6; -5.5; -5.4; 0] [40; 41] 1.5
        [[0; 1; 1; 1]; [1; 1; 1; 1]] = Some s
    ∧ length (seed_lon s) = length ys
    ∧ length (seed_lat s) = length ys
    ∧ seed_depth s = replicate (length ys) 1.5
    ∧ ∀ k a b, ys !! k = Some a → xs !! k = Some b →
        ∃ lo la, [-6; -5.5; -5.4; 0] !! b = Some lo ∧ [40; 41] !! a = Some la
                 ∧ seed_lon s !! k = Some lo ∧ seed_lat s !! k = Some la.
Proof.
  apply (seeds_spec [5; 2]%nat 3 [-6; -5.5; -5.4; 0] [40; 41] 1.5
           [[0; 1; 1; 1]; [1; 1; 1; 1]]).
  - repeat constructor.
  - simpl. lia.
Defined.

(** X4: every seed handed to Parcels lies on a cell of the coastal band
    that is not land, at a longitude strictly above -5.5; so it starts east
    of the wall at -5.8, and [GibraltarWall] leaves a particle at that
    position where it is. *)
Theorem seeds_east_of_wall {FS : Type} (rnd : list nat) (NB : nat)
    (lons_array lats_array : list float) (depth_val : float)
    (uo_sample : list (list float)) (s : Seeds) (k : nat) (lo : float) :
  seeds rnd NB lons_array lats_array depth_val uo_sample = Some s →
  seed_lon s !! k = Some lo →
  ∃ a b la,
    seed_lat s !! k = Some la
    ∧ lons_array !! b = Some lo ∧ lats_array !! a = Some la
    ∧ index2 (mask_coastal uo_sample) a b = Some true
    ∧ index2 (mask_land uo_sample) a b = Some false
    ∧ (-5.5 <? lo) = true
    ∧ ∀ (d : float) (fs : FS) (t : float),
        GibraltarWall (mkParticle lo la d) fs t = mkParticle lo la d.
Proof.
  intros (ys & xs & lons & lats & Hcells & Hlons & Hlats & ->)%seeds_Some Hk.
  simpl in *.
  destruct (seed_cells_sound _ _ _ _ _ _ Hcells) as (_ & _ & _ & _ & Hlen & _).
  rewrite (take_indices_lookup _ _ _ k Hlons) in Hk.
  apply bind_Some in Hk as (b & Hb & Hlo). simpl in Hlo.
  destruct (lookup_lt_is_Some_2 ys k) as [a Ha].
  { rewrite <- Hlen. by eapply lookup_lt_Some. }
  destruct (lookup_lt_is_Some_2 lats k) as [la Hla].
  { rewrite (take_indices_length _ _ _ Hlats). by eapply lookup_lt_Some. }
  pose proof Hla as Hla'.
  rewrite (take_indices_lookup _ _ _ k Hlats), Ha in Hla'. simpl in Hla'.
  destruct (seed_cells_coastal _ _ _ _ _ _ _ _ _ Hcells Ha Hb)
    as (Hc & Hland & _ & lo' & Hlo' & Heast).
  assert (lo' = lo) as -> by congruence.
  exists a, b, la. repeat split; try done.
  intros d fs t. unfold GibraltarWall. simpl. by rewrite (east_of_wall _ Heast).
Qed.

Lemma seeds_east_of_wall_witness :
  ∃ a b la,
    seed_lat (mkSeeds [0; 0; -5.4] [40; 41; 40] [1.5; 1.5; 1.5]) !! 2%nat
      = Some la
    ∧ [-6; -5.5; -5.4; 0] !! b = Some (-5.4) ∧ [40; 41] !! a = Some la
    ∧ index2 (mask_coastal [[0; 1; 1; 1]; [1; 1; 1; 1]]) a b = Some true
    ∧ index2 (mask_land [[0; 1; 1; 1]; [1; 1; 1; 1]]) a b = Some false
    ∧ (-5.5 <? -5.4) = true
    ∧ ∀ (d : float) (fs : unit) (t : float),
        GibraltarWall (mkParticle (-5.4) la d) fs t = mkParticle (-5.4) la d.
Proof.
  apply (seeds_east_of_wall (FS:=unit) [5; 2]%nat 3 [-6; -5.5; -5.4; 0] [40; 41] 1.5
           [[0; 1; 1; 1]; [1; 1; 1; 1]]
           (mkSeeds [0; 0; -5.4] [40; 41; 40] [1.5; 1.5; 1.5]) 2);
    vm_compute; reflexivity.
Defined.

(** ** The dilation, cell by cell *)

Lemma cell_or_border_true (m : list (list bool)) (i j : Z) :
  cell_or_border m i j = true ↔
  (0 ≤ i)%Z ∧ (0 ≤ j)%Z ∧ index2 m (Z.to_nat i) (Z.to_nat j) = Some true.
Proof.
  unfold cell_or_border, index2.
  destruct (0 <=? i)%Z eqn:Hi, (0 <=? j)%Z eqn:Hj; simpl;
    try (split; [done | intros (? & ? & _); lia]).
  destruct (m !! Z.to_nat i ≫= (.!! Z.to_nat j)) as [[]|]; simpl;
    split; try done; try (by intros (_ & _ & ?)); intros _; repeat split; lia.
Qed.

(** With the full 3x3 structure a cell is set by the dilation when one of
    the cells around it, itself included, is set in the input. *)
Lemma dilate_cell_full (m : list (list bool)) (i j : nat) :
  dilate_cell generate_binary_structure_2_2 m i j = true ↔
  ∃ a b, index2 m a b = Some true
         ∧ (a ≤ i + 1 ∧ i ≤ a + 1 ∧ b ≤ j + 1 ∧ j ≤ b + 1)%nat.
Proof.
  unfold dilate_cell. rewrite existsb_exists. split.
  - intros (da & Hda%list_elem_of_In%elem_of_seq & H).
    apply existsb_exists in H as (db & Hdb%list_elem_of_In%elem_of_seq & H).
    apply andb_true_iff in H as [_ (Hi & Hj & Hcell)%cell_or_border_true].
    eexists _, _. split; [exact Hcell|]. lia.
  - intros (a & b & Hcell & Hnear).
    exists (i + 1 - a)%nat. split; [apply list_elem_of_In, elem_of_seq; lia|].
    apply existsb_exists.
    exists (j + 1 - b)%nat. split; [apply list_elem_of_In, elem_of_seq; lia|].
    apply andb_true_iff. split.
    + assert (i + 1 - a < 3)%nat as Ha by lia.
      assert (j + 1 - b < 3)%nat as Hb by lia.
      destruct (i + 1 - a)%nat as [|[|[|?]]]; [| | |lia];
        destruct (j + 1 - b)%nat as [|[|[|?]]]; try lia; reflexivity.
    + apply cell_or_border_true. split; [lia|]. split; [lia|].
      replace (Z.to_nat (Z.of_nat i + 1 - Z.of_nat (i + 1 - a))) with a by lia.
      by replace (Z.to_nat (Z.of_nat j + 1 - Z.of_nat (j + 1 - b))) with b by lia.
Qed.

Lemma index2_dilate (structure m : list (list bool)) (i j : nat) :
  index2 (dilate structure m) i j
  = (λ _, dilate_cell structure m i j) <$> index2 m i j.
Proof.
  unfold index2, dilate. rewrite list_lookup_imap.
  destruct (m !! i) as [row|]; simpl; [|done].
  by rewrite list_lookup_imap.
Qed.

(** A dilation never reads outside its input: the cells it produces are
    those of the input. *)
Lemma index2_binary_dilation_is_Some (structure m : list (list bool))
    (n i j : nat) :
  is_Some (index2 (binary_dilation m structure n) i j) ↔ is_Some (index2 m i j).
Proof.
  unfold binary_dilation. induction n as [|n IH]; simpl; [done|].
  rewrite index2_dilate, fmap_is_Some. done.
Qed.

(** Whatever the shape, a cell set after [n] passes has a set cell of the
    input within [n] moves. *)
Lemma binary_dilation_sound (m : list (list bool)) (n i j : nat) :
  index2 (binary_dilation m generate_binary_structure_2_2 n) i j = Some true →
  ∃ a b, index2 m a b = Some true ∧ within n i j a b.
Proof.
  unfold binary_dilation. revert i j. induction n as [|n IH]; intros i j; simpl.
  { intros H. exists i, j. split; [done|]. unfold within. lia. }
  rewrite index2_dilate. intros H. apply fmap_Some in H as (_ & _ & H).
  symmetry in H. apply dilate_cell_full in H as (c & d & Hcd & Hnear).
  apply IH in Hcd as (a & b & Hab & Hn).
  exists a, b. split; [done|]. unfold within in *. lia.
Qed.

(** On a rectangular array the converse holds for every cell of the
    array. *)
Lemma binary_dilation_complete (w : nat) (m : list (list bool)) (n i j a b : nat) :
  Forall (λ row, length row = w) m →
  is_Some (index2 m i j) →
  index2 m a b = Some true → within n i j a b →
  index2 (binary_dilation m generate_binary_structure_2_2 n) i j = Some true.
Proof.
  intros Hrect. revert i j. induction n as [|n IH]; intros i j Hin Hab Hn.
  { unfold within in Hn. simpl.
    assert (a = i) as -> by lia. by assert (b = j) as -> by lia. }
  assert (∀ r c, (r < length m)%nat → (c < w)%nat → is_Some (index2 m r c))
    as Hcell.
  { intros r c Hr Hc. unfold index2.
    destruct (lookup_lt_is_Some_2 m r Hr) as [row Hrow]. rewrite Hrow. simpl.
    apply lookup_lt_is_Some. eapply Forall_lookup_1 in Hrect; [|exact Hrow].
    simpl in Hrect. lia. }
  assert (∀ r c, is_Some (index2 m r c) → (r < length m)%nat ∧ (c < w)%nat)
    as Hbound.
  { intros r c [x Hx]. unfold index2 in Hx.
    apply bind_Some in Hx as (row & Hrow & Hx). split.
    - by eapply lookup_lt_Some.
    - eapply Forall_lookup_1 in Hrect; [|exact Hrow]. simpl in Hrect.
      apply lookup_lt_Some in Hx. lia. }
  destruct (Hbound i j Hin) as [Hi Hj].
  destruct (Hbound a b) as [Ha Hb]; [by eexists|].
  set (c := if decide (a < i)%nat then (i - 1)%nat
            else if decide (i < a)%nat then (i + 1)%nat else i).
  set (d := if decide (b < j)%nat then (j - 1)%nat
            else if decide (j < b)%nat then (j + 1)%nat else j).
  assert (c < length m ∧ d < w ∧ within n c d a b ∧ within 1 i j c d)%nat
    as (Hc & Hd & Hncd & H1).
  { unfold within in *. subst c d. repeat case_decide; lia. }
  assert (index2 (binary_dilation m generate_binary_structure_2_2 n) c d
          = Some true) as Hcd by (apply IH; auto).
  unfold binary_dilation in *. simpl. rewrite index2_dilate.
  destruct (proj2 (index2_binary_dilation_is_Some
                     generate_binary_structure_2_2 m n i j) Hin) as [x Hx].
  unfold binary_dilation in Hx. rewrite Hx. simpl. f_equal.
  apply dilate_cell_full. exists c, d. split; [done|].
  unfold within in H1. lia.
Qed.

(** X5: on a rectangular sample the coastal band is exactly the sea within
    four king moves of land: a cell is in the band when it is not land and
    some land cell is at most four rows and four columns away. *)
Theorem coastal_band_within_four (w : nat) (uo_sample : list (list float))
    (i j : nat) :
  Forall (λ row, length row = w) uo_sample →
  index2 (mask_coastal uo_sample) i j = Some true ↔
  index2 (mask_land uo_sample) i j = Some false
  ∧ ∃ a b, index2 (mask_land uo_sample) a b = Some true ∧ within 4 i j a b.
Proof.
  intros Hrect.
  assert (Forall (λ row, length row = w) (mask_land uo_sample)) as Hrect'.
  { unfold mask_land. apply Forall_fmap. eapply Forall_impl; [exact Hrect|].
    intros row Hrow. simpl. by rewrite length_fmap. }
  split.
  - intros Hc.
    destruct (mask_coastal_inside _ _ _ _ Hc) as (row & [(_ & _ & Hland)|?]);
      [|done].
    split; [done|].
    destruct (mask_coastal_defined _ _ _ _ Hland) as (d & Hd & Hc').
    rewrite Hc in Hc'. destruct d; [|done].
    by apply binary_dilation_sound.
  - intros [Hland (a & b & Hab & Hn)].
    destruct (mask_coastal_defined _ _ _ _ Hland) as (d & Hd & ->).
    unfold mask_land_dilated in Hd.
    rewrite (binary_dilation_complete w _ 4 i j a b) in Hd by eauto.
    by injection Hd as <-.
Qed.

Lemma coastal_band_within_four_witness :
  index2 (mask_coastal [[0; 1; 1; 1; 1; 1]; [1; 1; 1; 1; 1; 1]]) 1 4 = Some true ↔
  index2 (mask_land [[0; 1; 1; 1; 1; 1]; [1; 1; 1; 1; 1; 1]]) 1 4 = Some false
  ∧ ∃ a b, index2 (mask_land [[0; 1; 1; 1; 1; 1]; [1; 1; 1; 1; 1; 1]]) a b
             = Some true ∧ within 4 1 4 a b.
Proof.
  apply (coastal_band_within_four 6 [[0; 1; 1; 1; 1; 1]; [1; 1; 1; 1; 1; 1]] 1 4).
  repeat constructor.
Defined.

(** ** The loop, step by step *)

(** A run over fewer steps returns too. *)
Lemma run_le (box : Box) (ds : Dataset) (j k : nat) (s' : Analysis) :
  (j ≤ k)%nat → run box ds k = Some s' → is_Some (run box ds j).
Proof.
  intros Hjk. revert s'. induction Hjk as [|k Hjk IH]; intros s' Hrun; [by eexists|].
  apply run_S in Hrun as (_ & s & _ & Hs & _). by eapply IH.
Qed.

(** The recorded days are the days of the first steps, in order. *)
Lemma run_t_axis (box : Box) (ds : Dataset) (k : nat) (s : Analysis) :
  run box ds k = Some s →
  ∀ i d, t_axis s !! i = Some d → day_at ds i = Some d.
Proof.
  revert s. induction k as [|k IH]; intros s.
  { intros (days & _ & [= <-])%run_Some i d. simpl. by rewrite lookup_nil. }
  intros Hrun.
  destruct (run_S _ _ _ _ Hrun) as (days & s0 & Hdays & Hs0 & Hcase).
  destruct Hcase as [[Hlen (fl & Hbody & <-)]|[_ ->]]; [|by apply IH].
  destruct fl as [st|st]; simpl.
  - apply body_Next in Hbody as (day & Hday & _ & _ & Ht & _).
    pose proof (run_recorded_ok _ _ _ _ Hs0) as [_ _ _ Hl].
    rewrite Ht. intros i d Hi.
    apply lookup_app_Some in Hi as [Hi|[Hge Hi]]; [by eapply IH|].
    apply list_lookup_singleton_Some in Hi as [Hi <-].
    assert (i = k) as -> by lia.
    by rewrite (day_at_days _ _ _ Hdays).
  - apply body_Break in Hbody as [-> _]. by apply IH.
Qed.

(** The set after a run: the particles in the box at a recorded step
    whose day is at or above 30. *)
Lemma run_captured (box : Box) (ds : Dataset) (k : nat) (s : Analysis) :
  run box ds k = Some s →
  ∀ p, p ∈ captured_ids s ↔
       ∃ t d, (t < length (curve s))%nat ∧ day_at ds t = Some d
              ∧ (30 <=? d) = true
              ∧ in_box_at box (lon_traj ds) (lat_traj ds) p t.
Proof.
  revert s. induction k as [|k IH]; intros s.
  { intros (days & _ & [= <-])%run_Some p. simpl. split.
    - by intros ?%not_elem_of_empty.
    - intros (t & _ & ? & _). lia. }
  intros Hrun.
  destruct (run_S _ _ _ _ Hrun) as (days & s0 & Hdays & Hs0 & Hcase).
  destruct Hcase as [[Hlen (fl & Hbody & <-)]|[_ ->]]; [|by apply IH].
  destruct fl as [st|st]; simpl.
  - apply body_Next in Hbody as (day & Hday & _ & Hc & _ & Hin).
    rewrite <- (day_at_days _ _ _ Hdays) in Hday.
    intros p. rewrite Hin, (IH _ Hs0), Hc, length_app, Hlen. simpl. split.
    + intros [(t & d & ? & ?)|[Hge Hbox]].
      * exists t, d. split; [lia|done].
      * exists k, day. split; [lia|done].
    + intros (t & d & Hlt & Hd & Hge & Hbox).
      destruct (decide (t = k)) as [->|Hne].
      * right. assert (d = day) as -> by congruence. done.
      * left. exists t, d. split; [lia|done].
  - apply body_Break in Hbody as [-> _]. by apply IH.
Qed.

(** Each count is the size of the set as it stood after its step. *)
Lemma run_curve (box : Box) (ds : Dataset) (k : nat) (s : Analysis) :
  run box ds k = Some s →
  ∀ i c, curve s !! i = Some c →
         ∃ si, run box ds (S i) = Some si ∧ length (curve si) = S i
               ∧ c = size (captured_ids si).
Proof.
  revert s. induction k as [|k IH]; intros s.
  { intros (days & _ & [= <-])%run_Some i c. simpl. by rewrite lookup_nil. }
  intros Hrun.
  destruct (run_S _ _ _ _ Hrun) as (days & s0 & Hdays & Hs0 & Hcase).
  destruct Hcase as [[Hlen (fl & Hbody & <-)]|[_ ->]]; [|by apply IH].
  destruct fl as [st|st]; simpl in *.
  - pose proof Hbody as (_ & _ & _ & Hc & _)%body_Next.
    rewrite Hc. intros i c Hi.
    apply lookup_app_Some in Hi as [Hi|[Hge Hi]]; [by eapply IH|].
    apply list_lookup_singleton_Some in Hi as [Hi <-].
    assert (i = k) as -> by lia.
    exists st. split; [done|]. split; [|done].
    rewrite Hc, length_app. simpl. lia.
  - apply body_Break in Hbody as [-> _]. by apply IH.
Qed.

(** ** What the curve and the set say *)

(** X7: when the analysis returns, the curve has one point per step of
    the store, in order: the i-th day recorded is the day of step i as it
    is read off the first particle's times, never NaN, and the i-th count
    is the size of the set as it stood after step i. *)
Theorem curve_one_point_per_step (box : Box) (ds : Dataset) (r : Analysis) :
  analyse box ds = Some r →
  length (curve r) = (shape (lon_traj ds)).2
  ∧ length (t_axis r) = (shape (lon_traj ds)).2
  ∧ (∀ i d, t_axis r !! i = Some d → day_at ds i = Some d ∧ is_nan d = false)
  ∧ (∀ i c, curve r !! i = Some c →
       ∃ si, run box ds (S i) = Some si ∧ c = size (captured_ids si)).
Proof.
  unfold analyse. intros Hrun.
  pose proof (run_recorded_ok _ _ _ _ Hrun) as [_ _ Hdays Hlen].
  pose proof (run_length _ _ _ _ Hrun) as Hn.
  split; [done|]. split; [congruence|]. split.
  - intros i d Hi. split; [by eapply run_t_axis|].
    eapply Forall_lookup_1 in Hdays; [|exact Hi]. done.
  - intros i c Hi.
    destruct (run_curve _ _ _ _ Hrun i c Hi) as (si & Hsi & _ & ->). eauto.
Qed.

Lemma curve_one_point_per_step_witness :
  let r := mkAnalysis {[0%nat]} [0; 1; 1]%nat [0; 30; 60] in
  length (curve r) = (shape (lon_traj scenario_store)).2
  ∧ length (t_axis r) = (shape (lon_traj scenario_store)).2
  ∧ (∀ i d, t_axis r !! i = Some d →
            day_at scenario_store i = Some d ∧ is_nan d = false)
  ∧ (∀ i c, curve r !! i = Some c →
       ∃ si, run unit_box scenario_store (S i) = Some si
             ∧ c = size (captured_ids si)).
Proof.
  apply (curve_one_point_per_step unit_box scenario_store).
  vm_compute; reflexivity.
Defined.

(** X8: the final set is exactly the set of particles found in the box,
    bounds included, at a step of the store whose day is at or above 30;
    the bounds are the float32 numbers that numpy compares the float32
    coordinates with. *)
Theorem captured_ids_characterized (box : Box) (ds : Dataset) (r : Analysis) :
  analyse box ds = Some r →
  ∀ p, p ∈ captured_ids r ↔
       ∃ t d x y, (t < (shape (lon_traj ds)).2)%nat ∧ day_at ds t = Some d
         ∧ (30 <=? d) = true
         ∧ index2 (lon_traj ds) p t = Some x ∧ index2 (lat_traj ds) p t = Some y
         ∧ (to_f32 (lon_min box) <=? x) = true
         ∧ (x <=? to_f32 (lon_max box)) = true
         ∧ (to_f32 (lat_min box) <=? y) = true
         ∧ (y <=? to_f32 (lat_max box)) = true.
Proof.
  unfold analyse. intros Hrun p. rewrite (run_captured _ _ _ _ Hrun).
  rewrite (run_length _ _ _ _ Hrun).
  unfold in_box_at. setoid_rewrite inside_true. split.
  - intros (t & d & ? & ? & ? & x & y & ?). by exists t, d, x, y.
  - intros (t & d & x & y & ? & ? & ? & ?). exists t, d.
    do 3 (split; [done|]). by exists x, y.
Qed.

Lemma captured_ids_characterized_witness :
  let r := mkAnalysis {[0%nat]} [0; 1; 1]%nat [0; 30; 60] in
  0%nat ∈ captured_ids r ↔
    ∃ t d x y, (t < (shape (lon_traj amp_corner_store)).2)%nat
      ∧ day_at amp_corner_store t = Some d
      ∧ (30 <=? d) = true
      ∧ index2 (lon_traj amp_corner_store) 0 t = Some x
      ∧ index2 (lat_traj amp_corner_store) 0 t = Some y
      ∧ (to_f32 (lon_min AMP_BOX) <=? x) = true
      ∧ (x <=? to_f32 (lon_max AMP_BOX)) = true
      ∧ (to_f32 (lat_min AMP_BOX) <=? y) = true
      ∧ (y <=? to_f32 (lat_max AMP_BOX)) = true.
Proof.
  apply (captured_ids_characterized AMP_BOX amp_corner_store
           (mkAnalysis {[0%nat]} [0; 1; 1]%nat [0; 30; 60])).
  vm_compute; reflexivity.
Defined.

(** X20: the edges of [AMP_BOX] as the test sees them.  Of its four
    bounds only 42.5 is a float32 number: 4.2 and 5.2 are compared as the
    float32 just below them and 43.2 as the float32 just above it; what
    is rounded once is a float32 number and is not rounded again.  A
    particle recorded on day 30 at longitude float32(4.2) and latitude
    float32(43.2) passes the test and is captured, although as doubles its
    longitude is below 4.2 and its latitude above 43.2. *)
Theorem amp_box_float32_edges :
  (to_f32 4.2 <? 4.2) = true ∧ (to_f32 5.2 <? 5.2) = true
  ∧ to_f32 42.5 = 42.5 ∧ (43.2 <? to_f32 43.2) = true
  ∧ to_f32 (to_f32 4.2) = to_f32 4.2 ∧ to_f32 (to_f32 43.2) = to_f32 43.2
  ∧ (lon_min AMP_BOX <=? to_f32 4.2) = false
  ∧ (to_f32 43.2 <=? lat_max AMP_BOX) = false
  ∧ inside AMP_BOX (to_f32 4.2) (to_f32 43.2) = true
  ∧ analyse AMP_BOX [[mkObs 0 5 5; mkObs ns_30d (to_f32 4.2) (to_f32 43.2)]]
    = Some (mkAnalysis {[0%nat]} [0%nat; 1%nat] [0; 30]).
Proof. repeat split; vm_compute; reflexivity. Qed.

(** X9: nothing is captured before maturation: a count recorded at a step
    up to which no day has reached 30 is zero. *)
Theorem no_capture_before_maturation (box : Box) (ds : Dataset) (r : Analysis)
    (i c : nat) :
  analyse box ds = Some r →
  curve r !! i = Some c →
  (∀ t d, (t ≤ i)%nat → day_at ds t = Some d → (30 <=? d) = false) →
  c = 0%nat.
Proof.
  unfold analyse. intros Hrun Hi Hbelow.
  destruct (run_curve _ _ _ _ Hrun i c Hi) as (si & Hsi & Hlen & ->).
  apply size_empty_iff. apply set_equiv. intros p. split.
  - intros (t & d & Hlt & Hd & Hge & _)%(run_captured _ _ _ _ Hsi).
    rewrite (Hbelow t d) in Hge; [done|lia|done].
  - by intros ?%not_elem_of_empty.
Qed.

Lemma no_capture_before_maturation_witness : 0%nat = 0%nat.
Proof.
  apply (no_capture_before_maturation unit_box scenario_store
           (mkAnalysis {[0%nat]} [0; 1; 1]%nat [0; 30; 60]) 0 0).
  - vm_compute; reflexivity.
  - reflexivity.
  - intros t d Ht. assert (t = 0%nat) as -> by lia.
    vm_compute. by intros [= <-].
Defined.

(** X10: only particles of the store are captured: every captured index is
    below the number of trajectories, and so are the size of the set and
    every count of the curve. *)
Theorem captured_ids_in_range (box : Box) (ds : Dataset) (r : Analysis) :
  analyse box ds = Some r →
  (∀ p, p ∈ captured_ids r → (p < (shape (lon_traj ds)).1)%nat)
  ∧ (size (captured_ids r) ≤ (shape (lon_traj ds)).1)%nat
  ∧ Forall (λ c, c ≤ (shape (lon_traj ds)).1)%nat (curve r).
Proof.
  unfold analyse. intros Hrun.
  pose proof (run_recorded_ok _ _ _ _ Hrun) as [_ Hbound _ _].
  assert (∀ p, p ∈ captured_ids r → (p < (shape (lon_traj ds)).1)%nat) as Hp.
  { intros p (t & d & _ & _ & _ & x & y & Hx & _)%(run_captured _ _ _ _ Hrun).
    simpl. unfold index2 in Hx. apply bind_Some in Hx as (row & Hrow & _).
    by eapply lookup_lt_Some. }
  revert Hp. generalize ((shape (lon_traj ds)).1). intros n Hp.
  assert (size (captured_ids r) ≤ n)%nat as Hsize.
  { rewrite <- (size_set_seq (C:=gset nat) 0 n).
    apply subseteq_size. intros p Hin%Hp. apply elem_of_set_seq. lia. }
  split; [done|]. split; [done|].
  eapply Forall_impl; [exact Hbound|]. simpl. lia.
Qed.

Lemma captured_ids_in_range_witness :
  let r := mkAnalysis {[0%nat]} [0; 1; 1]%nat [0; 30; 60] in
  (∀ p, p ∈ captured_ids r → (p < (shape (lon_traj scenario_store)).1)%nat)
  ∧ (size (captured_ids r) ≤ (shape (lon_traj scenario_store)).1)%nat
  ∧ Forall (λ c, c ≤ (shape (lon_traj scenario_store)).1)%nat (curve r).
Proof.
  apply (captured_ids_in_range unit_box scenario_store).
  vm_compute; reflexivity.
Defined.

Lemma foldl_max_sorted (x : nat) (l : list nat) :
  StronglySorted le (x :: l) → foldl Nat.max x l = default x (last l).
Proof.
  revert x. induction l as [|y l IH]; intros x Hs; simpl; [done|].
  apply StronglySorted_cons in Hs as [Hx Hl].
  apply Forall_cons in Hx as [Hxy _].
  rewrite Nat.max_r by done. rewrite (IH y Hl), last_cons.
  by destruct (last l).
Qed.

Lemma py_max_sorted (l : list nat) : StronglySorted le l → py_max l = last l.
Proof.
  destruct l as [|x l]; [done|]. intros Hs. simpl.
  rewrite (foldl_max_sorted x l Hs), last_cons. by destruct (last l).
Qed.

Lemma index2_Some_shape {A : Type} (a : list (list A)) (t : nat) (x : A) :
  index2 a 0 t = Some x → (t < (shape a).2)%nat.
Proof.
  unfold index2, shape. destruct a as [|row a]; simpl; [done|].
  apply lookup_lt_Some.
Qed.

(** X11: what the dashboard reads off the curve.  When the curve is not
    empty, [max(curve)] and [curve[-1]] are both the size of the final
    set.  The curve is empty only when the day of the first step is NaN;
    then the set is empty too, [max(curve)] raises [ValueError] and
    [curve[-1]] raises [IndexError].  (A day that is read is never NaN, so
    by X7 the first case does not arise on a store with a step.) *)
Theorem dashboard_total (box : Box) (ds : Dataset) (r : Analysis) :
  analyse box ds = Some r →
  (curve r = [] ∧ captured_ids r = ∅
   ∧ max_curve r = None ∧ total_captured r = None
   ∧ ∃ d, day_at ds 0 = Some d ∧ is_nan d = true)
  ∨ (curve r ≠ []
     ∧ max_curve r = Some (size (captured_ids r))
     ∧ total_captured r = Some (size (captured_ids r))).
Proof.
  unfold analyse, max_curve, total_captured. intros Hrun.
  pose proof (run_recorded_ok _ _ _ _ Hrun) as [Hsorted _ _ _].
  rewrite (py_max_sorted _ Hsorted).
  destruct (last (curve r)) as [c|] eqn:Hlast.
  - right.
    assert (curve r ≠ []) as Hne by (by intros Heq; rewrite Heq in Hlast).
    split; [done|].
    rewrite last_lookup in Hlast.
    destruct (run_curve _ _ _ _ Hrun _ _ Hlast) as (si & Hsi & Hlen & ->).
    assert (length (curve si) = length (curve r)) as Hlen'.
    { rewrite Hlen. destruct (curve r) eqn:E; [done|reflexivity]. }
    assert (captured_ids si = captured_ids r) as ->; [|done].
    apply set_eq. intros p.
    by rewrite (run_captured _ _ _ _ Hsi), (run_captured _ _ _ _ Hrun), Hlen'.
  - exfalso. apply last_None in Hlast.
    pose proof Hrun as (days & Hdays & _)%run_Some.
    unfold days_traj in Hdays.
    apply bind_Some in Hdays as (t00 & Ht00%index2_Some_shape & _).
    unfold time_vals in Ht00. rewrite shape_fmap in Ht00.
    apply run_length in Hrun. unfold lon_traj in Hrun.
    rewrite shape_fmap, Hlast in Hrun. cbn [length] in Hrun.
    rewrite <- Hrun in Ht00. lia.
Qed.

Lemma dashboard_total_witness :
  let r := mkAnalysis {[0%nat]} [0; 1; 1]%nat [0; 30; 60] in
  (curve r = [] ∧ captured_ids r = ∅
   ∧ max_curve r = None ∧ total_captured r = None
   ∧ ∃ d, day_at scenario_store 0 = Some d ∧ is_nan d = true)
  ∨ (curve r ≠ []
     ∧ max_curve r = Some (size (captured_ids r))
     ∧ total_captured r = Some (size (captured_ids r))).
Proof.
  apply (dashboard_total unit_box scenario_store).
  vm_compute; reflexivity.
Defined.

(** X12: on a rectangular store the analysis raises an error exactly when
    the store has no observation at all, no trajectory or no step, so that
    [time_vals[0, 0]] is out of range, or when the day of one of its steps
    cannot be read. *)
Theorem analyse_error_iff (box : Box) (ds : Dataset) :
  rectangular ds →
  analyse box ds = None ↔
  (shape ds).2 = 0%nat ∨ ∃ t, (t < (shape ds).2)%nat ∧ day_at ds t = None.
Proof.
  intros Hrect.
  assert (shape (lon_traj ds) = shape ds) as Hshape by apply shape_fmap.
  split.
  - intros Hnone. destruct (decide ((shape ds).2 = 0%nat)) as [|Hne]; [by left|].
    right.
    destruct (decide (Forall (λ t, is_Some (day_at ds t)) (seq 0 (shape ds).2)))
      as [Hall|Hex].
    + destruct (analyse_total box ds Hrect) as [r Hr]; [lia| |congruence].
      intros t Ht. eapply Forall_forall in Hall; [exact Hall|].
      apply elem_of_seq. lia.
    + apply not_Forall_Exists in Hex; [|apply _].
      apply Exists_exists in Hex as (t & Ht%elem_of_seq & Hday).
      exists t. split; [lia|]. by apply eq_None_not_Some.
  - intros [Hempty|(t & Ht & Hday)].
    + unfold analyse, run, days_traj.
      destruct (index2 (time_vals ds) 0 0) as [t00|] eqn:Ht00; [|done].
      apply index2_Some_shape in Ht00.
      unfold time_vals in Ht00. rewrite shape_fmap in Ht00. lia.
    + unfold analyse. rewrite Hshape. by apply (run_undefined_day box ds t).
Qed.

Lemma analyse_error_iff_witness :
  analyse unit_box gap_store = None ↔
  (shape gap_store).2 = 0%nat
  ∨ ∃ t, (t < (shape gap_store).2)%nat ∧ day_at gap_store t = None.
Proof.
  apply (analyse_error_iff unit_box gap_store). repeat constructor.
Defined.

(** ** The static map *)

Lemma compress_fmap {A B : Type} (h : A → bool) (f : A → B) (l : list A) :
  compress (h <$> l) (f <$> l) = f <$> filter (λ o, h o = true) l.
Proof.
  unfold compress. induction l as [|o l IH]; [done|].
  cbn [fmap list_fmap zip_with]. rewrite !filter_cons. simpl.
  destruct (decide (h o = true)); simpl; [f_equal|]; exact IH.
Qed.

Lemma existsb_id_fmap {A : Type} (h : A → bool) (l : list A) :
  existsb id (h <$> l) = false ↔ filter (λ o, h o = true) l = [].
Proof.
  induction l as [|o l IH]; [done|].
  cbn [fmap list_fmap existsb]. rewrite filter_cons. unfold id at 1.
  destruct (h o) eqn:Ho; simpl.
  - split; intros ?; discriminate.
  - exact IH.
Qed.

Lemma zip_fmap_same {A B C : Type} (f : A → B) (g : A → C) (l : list A) :
  zip (f <$> l) (g <$> l) = (λ o, (f o, g o)) <$> l.
Proof. induction l as [|o l IH]; [done|]. simpl. f_equal. exact IH. Qed.

Lemma head_fmap {A B : Type} (f : A → B) (l : list A) :
  head (f <$> l) = f <$> head l.
Proof. by destruct l. Qed.

Lemma filter_defined_lat (row : list Obs) :
  filter (λ o, ((λ x, negb (is_nan x)) ∘ obs_lat) o = true) row
  = filter (λ o, is_nan (obs_lat o) = false) row.
Proof.
  induction row as [|o row IH]; [done|].
  rewrite !filter_cons, IH. simpl.
  destruct (is_nan (obs_lat o)); simpl; done.
Qed.

(** folium accepts a list of locations when none has a NaN coordinate. *)
Lemma mapM_validate_location (tr : list (float * float)) :
  mapM validate_location tr
  = if forallb (λ pt, negb (is_nan pt.1 || is_nan pt.2)) tr
    then Some tr else None.
Proof.
  induction tr as [|pt tr IH]; [done|].
  cbn [mapM forallb]. rewrite IH. unfold validate_location at 1.
  destruct (is_nan pt.1 || is_nan pt.2); simpl; [done|].
  by destruct (forallb _ tr).
Qed.

Lemma mapM_if {A B : Type} (g : A → bool) (h : A → B) (l : list A) :
  mapM (λ a, if g a then Some (h a) else None) l
  = if forallb g l then Some (h <$> l) else None.
Proof.
  induction l as [|a l IH]; [done|].
  cbn [mapM forallb]. rewrite IH.
  destruct (g a); simpl; [|done]. by destruct (forallb g l).
Qed.



(** Where the latitudes are defined, the locations that folium accepts
    are those whose longitude is defined. *)
Lemma valid_locations (kept : list Obs) :
  Forall (λ o, is_nan (obs_lat o) = false) kept →
  forallb (λ pt, negb (is_nan pt.1 || is_nan pt.2))
    ((λ o, (obs_lat o, obs_lon o)) <$> kept)
  = forallb (λ pt, negb (is_nan pt.2)) ((λ o, (obs_lat o, obs_lon o)) <$> kept).
Proof.
  induction 1 as [|o kept Ho _ IH]; [done|].
  cbn [fmap list_fmap forallb fst snd]. cbv beta. by rewrite Ho, IH.
Qed.

Lemma validate_location_Some (tr : list (float * float)) (pt : float * float) :
  forallb (λ pt, negb (is_nan pt.1 || is_nan pt.2)) tr = true → pt ∈ tr →
  validate_location pt = Some pt.
Proof.
  rewrite forallb_forall. intros Hall Hpt%list_elem_of_In. apply Hall in Hpt.
  unfold validate_location. by destruct (is_nan pt.1 || is_nan pt.2).
Qed.

(** The body of the loop, on the two rows of one trajectory: folium raises
    when the track has a NaN longitude, else what [drawn] says is drawn. *)
Lemma static_layers_row (row : list Obs) :
  static_layers (obs_lat <$> row) (obs_lon <$> row)
  = if lon_defined row then Some (drawn row) else None.
Proof.
  unfold static_layers, drawn, lon_defined, track.
  rewrite <- list_fmap_compose.
  rewrite !compress_fmap, filter_defined_lat.
  assert (Forall (λ o, is_nan (obs_lat o) = false)
            (filter (λ o, is_nan (obs_lat o) = false) row)) as Hkept.
  { apply Forall_forall. by intros o [Ho _]%list_elem_of_filter. }
  destruct (existsb id (((λ x, negb (is_nan x)) ∘ obs_lat) <$> row)) eqn:Hany;
    simpl.
  - assert (filter (λ o, is_nan (obs_lat o) = false) row ≠ []) as Hne.
    { rewrite <- filter_defined_lat. intros Hnil%existsb_id_fmap. congruence. }
    revert Hne Hkept. generalize (filter (λ o, is_nan (obs_lat o) = false) row).
    intros kept Hne Hkept.
    rewrite !head_fmap, !fmap_last, zip_fmap_same, mapM_validate_location.
    rewrite <- (valid_locations kept Hkept).
    destruct (head kept) as [o0|] eqn:Hhead; [|by destruct kept].
    destruct (last kept) as [o1|] eqn:Hlast; [|by apply last_None in Hlast].
    simpl.
    destruct (forallb _ ((λ o, (obs_lat o, obs_lon o)) <$> kept)) eqn:Hall.
    + rewrite (validate_location_Some _ (obs_lat o0, obs_lon o0) Hall).
      2:{ destruct kept; [done|]. injection Hhead as ->. by left. }
      rewrite (validate_location_Some _ (obs_lat o1, obs_lon o1) Hall).
      2:{ apply last_Some in Hlast as (l' & ->). rewrite fmap_app.
          apply elem_of_app. right. by left. }
      done.
    + destruct (validate_location (obs_lat o0, obs_lon o0)); simpl; [|done].
      by destruct (validate_location (obs_lat o1, obs_lon o1)).
  - apply existsb_id_fmap in Hany. rewrite filter_defined_lat in Hany.
    by rewrite Hany.
Qed.

Lemma elem_of_py_range (stop step p : nat) :
  (0 < step)%nat →
  p ∈ py_range stop step ↔ (p < stop)%nat ∧ (p `mod` step = 0)%nat.
Proof.
  intros Hstep. unfold py_range. rewrite list_elem_of_fmap.
  pose proof (Nat.div_mod_eq (stop + step - 1) step) as Hs.
  pose proof (Nat.mod_upper_bound (stop + step - 1) step) as Hr.
  revert Hs Hr.
  generalize ((stop + step - 1) / step)%nat ((stop + step - 1) `mod` step)%nat.
  intros Q R Hs Hr. split.
  - intros (k & -> & Hk%elem_of_seq). split; [nia|].
    apply Nat.Div0.mod_mul.
  - intros [Hlt Hmod]. exists (p / step)%nat.
    pose proof (Nat.div_mod_eq p step) as Hp. rewrite Hmod in Hp.
    revert Hp. generalize (p / step)%nat. intros q Hp.
    split; [lia|]. apply elem_of_seq. nia.
Qed.

Lemma py_range_sorted (stop step : nat) :
  (0 < step)%nat → StronglySorted lt (py_range stop step).
Proof.
  intros Hstep. unfold py_range.
  generalize ((stop + step - 1) / step)%nat. intros n. generalize 0%nat.
  induction n as [|n IH]; intros a; simpl; constructor; [apply IH|].
  apply Forall_forall. intros p (k & -> & Hk%elem_of_seq)%list_elem_of_fmap.
  nia.
Qed.

Lemma static_map_rows (ds : Dataset) (ps : list nat) :
  Forall (λ p, p < length ds)%nat ps →
  ∃ rows, take_indices ds ps = Some rows
    ∧ mapM (λ p, lats ← lat_traj ds !! p;
                 lons ← lon_traj ds !! p;
                 static_layers lats lons) ps
      = if forallb lon_defined rows then Some (drawn <$> rows) else None.
Proof.
  unfold take_indices.
  induction 1 as [|p ps Hp _ (rows & Hrows & Hlayers)]; [by exists []|].
  destruct (lookup_lt_is_Some_2 ds p Hp) as [row Hrow].
  exists (row :: rows). cbn [mapM forallb]. rewrite Hrow, Hrows, Hlayers.
  unfold lat_traj, lon_traj. rewrite !list_lookup_fmap, Hrow. simpl.
  rewrite static_layers_row.
  destruct (lon_defined row); simpl; [|done]. by destruct (forallb lon_defined rows).
Qed.

Lemma static_map_drawn (ds : Dataset) :
  ∃ rows, take_indices ds (py_range (length ds) STEP_STATIC) = Some rows
    ∧ static_map ds
      = if forallb lon_defined rows then Some (concat (drawn <$> rows)) else None.
Proof.
  destruct (static_map_rows ds (py_range (length ds) STEP_STATIC))
    as (rows & Hrows & Hlayers).
  { apply Forall_forall. intros p Hp.
    apply elem_of_py_range in Hp as [? _]; [done|unfold STEP_STATIC; lia]. }
  exists rows. split; [done|]. unfold static_map, lon_traj.
  cbn [shape fst]. rewrite length_fmap.
  unfold lon_traj in Hlayers. rewrite Hlayers.
  by destruct (forallb lon_defined rows).
Qed.

(** X14: the loop of section 4 reads within its arrays (no [IndexError])
    and takes the trajectories 0, 50, 100, ... only.  The track of a
    trajectory is the points whose latitude is not NaN, in the order of
    the steps.  When one of these tracks has a NaN longitude, folium
    raises [ValueError].  Otherwise the map receives, for each of these
    trajectories with at least one defined latitude, a start marker at
    the first point of its track, an end marker at the last one and a
    line through the track, and nothing for a trajectory with no defined
    latitude. *)
Theorem static_map_spec (ds : Dataset) :
  (∀ p, p ∈ py_range (length ds) STEP_STATIC ↔
        (p < length ds)%nat ∧ (p `mod` 50 = 0)%nat)
  ∧ ∃ rows, take_indices ds (py_range (length ds) STEP_STATIC) = Some rows
      ∧ static_map ds
        = if forallb lon_defined rows
          then Some (concat (drawn <$> rows)) else None.
Proof.
  split; [intros p; apply elem_of_py_range; unfold STEP_STATIC; lia|].
  apply static_map_drawn.
Qed.



(** ** The time-stamped features *)

Lemma mapM_concat_bind {A B : Type} (f : A → option (list B)) (g : A → list B)
    (l : list A) (ks : list (list B)) :
  mapM f l = Some ks →
  (∀ a ys, a ∈ l → f a = Some ys → ys = g a) →
  concat ks = l ≫= g.
Proof.
  revert ks. induction l as [|a l IH]; intros ks; cbn [mapM].
  { by intros [= <-] _. }
  intros H Hg. apply bind_Some in H as (ys & Hys & H).
  apply bind_Some in H as (ks' & Hks' & [= <-]).
  simpl. rewrite (Hg a ys) by (done || by left). f_equal.
  apply IH; [done|]. intros a' ys' Ha'. apply Hg. by right.
Qed.

Lemma mapM_None {A B : Type} (f : A → option B) (l : list A) :
  mapM f l = None ↔ ∃ a, a ∈ l ∧ f a = None.
Proof.
  induction l as [|a l IH]; cbn [mapM].
  { split; [done|]. by intros (a & ?%elem_of_nil & _). }
  destruct (f a) as [y|] eqn:Hfa; simpl.
  - destruct (mapM f l) as [k|]; simpl.
    + split; [done|]. intros (a' & [->|Ha']%elem_of_cons & Hnone); [congruence|].
      assert (Some k = None) as Hn by (apply IH; eauto). done.
    + split; [|done]. intros _.
      destruct (proj1 IH eq_refl) as (a' & Ha' & Hnone).
      exists a'. split; [by right|done].
  - split; [|done]. intros _. exists a. split; [by left|done].
Qed.

Section features_facts.
Context {T : Type}.
Variable timestamp : float → option T.
Variable round3 : float → float.

(** What one pass of the inner loop appends when it raises no error. *)
Lemma feature_at_Some (style : Style) (captured : gset nat)
    (lons lats : list (list float)) (days : list (list Z)) (p t : nat)
    (fs : list (Feature T)) :
  feature_at timestamp round3 style captured lons lats days p t = Some fs →
  fs = match index2 lons p t, index2 lats p t, day_of days t ≫= timestamp with
       | Some x, Some y, Some tm =>
           if is_nan x then []
           else [feature_of round3 style captured p x y tm]
       | _, _, _ => []
       end.
Proof.
  unfold feature_at. destruct (index2 lons p t) as [x|]; simpl; [|done].
  destruct (is_nan x) eqn:Hnan.
  - intros [= <-].
    by destruct (index2 lats p t), (day_of days t ≫= timestamp).
  - destruct (day_of days t) as [day|]; simpl; [|done].
    destruct (timestamp day) as [tm|]; simpl; [|done].
    destruct (index2 lats p t) as [y|]; simpl; [|done].
    by intros [= <-].
Qed.

Lemma feature_at_None (style : Style) (captured : gset nat)
    (lons lats : list (list float)) (days : list (list Z)) (p t : nat) :
  feature_at timestamp round3 style captured lons lats days p t = None ↔
  index2 lons p t = None
  ∨ ∃ x, index2 lons p t = Some x ∧ is_nan x = false
      ∧ (day_of days t ≫= timestamp = None ∨ index2 lats p t = None).
Proof.
  unfold feature_at.
  destruct (index2 lons p t) as [x|]; simpl; [|split; [by left|done]].
  destruct (is_nan x) eqn:Hnan.
  { split; [done|]. intros [?|(x' & [= <-] & ? & _)]; congruence. }
  destruct (day_of days t) as [day|]; simpl.
  - destruct (timestamp day) as [tm|] eqn:Htm; simpl.
    + destruct (index2 lats p t) as [y|]; simpl.
      * split; [done|]. intros [?|(x' & _ & _ & [?|?])]; congruence.
      * split; [|done]. intros _. right. exists x. auto.
    + split; [|done]. intros _. right. exists x. auto.
  - split; [|done]. intros _. right. exists x. auto.
Qed.

Lemma features_None (sp st : nat) (style : Style) (captured : gset nat)
    (ds : Dataset) :
  features timestamp round3 sp st style captured ds = None ↔
  days_traj (time_vals ds) = None
  ∨ ∃ days p t, days_traj (time_vals ds) = Some days
      ∧ p ∈ py_range (shape (lon_traj ds)).1 sp
      ∧ t ∈ py_range (shape (lon_traj ds)).2 st
      ∧ feature_at timestamp round3 style captured (lon_traj ds) (lat_traj ds)
          days p t = None.
Proof.
  unfold features.
  destruct (days_traj (time_vals ds)) as [days|]; simpl;
    [|split; [by left|done]].
  rewrite bind_None. split.
  - intros [Hnone|(? & _ & ?)]; [|done]. right.
    apply mapM_None in Hnone as (p & Hp & Hnone).
    apply bind_None in Hnone as [Hnone|(? & _ & ?)]; [|done].
    apply mapM_None in Hnone as (t & Ht & Hnone).
    by exists days, p, t.
  - intros [?|(days' & p & t & [= <-] & Hp & Ht & Hnone)]; [done|].
    left. apply mapM_None. exists p. split; [done|].
    apply bind_None. left. apply mapM_None. by exists t.
Qed.

(** The list that is built: the passes of the two loops, in order. *)
Lemma features_Some (sp st : nat) (style : Style) (captured : gset nat)
    (ds : Dataset) (fs : list (Feature T)) :
  features timestamp round3 sp st style captured ds = Some fs →
  fs = p ← py_range (shape (lon_traj ds)).1 sp;
       t ← py_range (shape (lon_traj ds)).2 st;
       match index2 (lon_traj ds) p t, index2 (lat_traj ds) p t,
             day_at ds t ≫= timestamp with
       | Some x, Some y, Some tm =>
           if is_nan x then []
           else [feature_of round3 style captured p x y tm]
       | _, _, _ => []
       end.
Proof.
  unfold features. intros H.
  apply bind_Some in H as (days & Hdays & H).
  apply bind_Some in H as (pp & Hpp & [= <-]).
  apply (mapM_concat_bind _ _ _ _ Hpp). intros p ys _ Hys.
  apply bind_Some in Hys as (ps & Hps & [= <-]).
  apply (mapM_concat_bind _ _ _ _ Hps). intros t fs _ Hfs.
  rewrite (day_at_days _ _ _ Hdays). by apply feature_at_Some.
Qed.

End features_facts.

Lemma index2_rect_is_Some {A : Type} (g : Obs → A) (ds : Dataset) (p t : nat) :
  rectangular ds → (p < length ds)%nat → (t < (shape ds).2)%nat →
  is_Some (index2 (fmap (M:=list) g <$> ds) p t).
Proof.
  intros Hrect Hp Ht. unfold index2. rewrite list_lookup_fmap.
  destruct (lookup_lt_is_Some_2 ds p Hp) as [row Hrow]. rewrite Hrow. simpl.
  apply lookup_lt_is_Some. rewrite length_fmap.
  eapply Forall_lookup_1 in Hrect; [|exact Hrow]. cbv beta in Hrect. lia.
Qed.

(** X16: when the list of features is built, it is, in the order of the
    two loops and with nothing repeated, one feature for each sampled
    particle (every [step_part]-th, from 0) at each sampled step (every
    [step_time]-th, from 0) where the particle's longitude is not NaN; the
    feature carries the rounded position, the time string of the step's
    day and the style of a captured particle exactly when the particle is
    in [captured_ids]. *)
Theorem features_spec {T : Type} (timestamp : float → option T)
    (round3 : float → float) (sp st : nat) (style : Style)
    (captured : gset nat) (ds : Dataset) (fs : list (Feature T)) :
  (0 < sp)%nat → (0 < st)%nat →
  features timestamp round3 sp st style captured ds = Some fs →
  fs = (p ← py_range (shape (lon_traj ds)).1 sp;
        t ← py_range (shape (lon_traj ds)).2 st;
        match index2 (lon_traj ds) p t, index2 (lat_traj ds) p t,
              day_at ds t ≫= timestamp with
        | Some x, Some y, Some tm =>
            if is_nan x then []
            else [ {| coordinates := (round3 x, round3 y);
                      feature_time := tm;
                      fillColor := (style (bool_decide (p ∈ captured))).1.1;
                      fillOpacity := (style (bool_decide (p ∈ captured))).2;
                      radius := (style (bool_decide (p ∈ captured))).1.2 |} ]
        | _, _, _ => []
        end)
  ∧ (∀ p, p ∈ py_range (shape (lon_traj ds)).1 sp ↔
          (p < (shape (lon_traj ds)).1)%nat ∧ (p `mod` sp = 0)%nat)
  ∧ (∀ t, t ∈ py_range (shape (lon_traj ds)).2 st ↔
          (t < (shape (lon_traj ds)).2)%nat ∧ (t `mod` st = 0)%nat)
  ∧ StronglySorted lt (py_range (shape (lon_traj ds)).1 sp)
  ∧ StronglySorted lt (py_range (shape (lon_traj ds)).2 st).
Proof.
  intros Hsp Hst Hfs.
  split; [exact (features_Some _ _ _ _ _ _ _ _ Hfs)|].
  split; [intros p; by apply elem_of_py_range|].
  split; [intros t; by apply elem_of_py_range|].
  split; by apply py_range_sorted.
Qed.

Lemma features_spec_witness :
  [mkFeature (5, 5) 0 red_e74c3c 1.0 1.5;
   mkFeature (0.5, 0.5) 60 red_e74c3c 1.0 1.5]
  = (p ← py_range (shape (lon_traj scenario_store)).1 12;
     t ← py_range (shape (lon_traj scenario_store)).2 2;
     match index2 (lon_traj scenario_store) p t,
           index2 (lat_traj scenario_store) p t,
           day_at scenario_store t ≫= (λ d, if is_nan d then None else Some d) with
     | Some x, Some y, Some tm =>
         if is_nan x then []
         else [ {| coordinates := (x, y);
                   feature_time := tm;
                   fillColor := (style_dynamic (bool_decide (p ∈ ({[0%nat]} : gset nat)))).1.1;
                   fillOpacity := (style_dynamic (bool_decide (p ∈ ({[0%nat]} : gset nat)))).2;
                   radius := (style_dynamic (bool_decide (p ∈ ({[0%nat]} : gset nat)))).1.2 |} ]
     | _, _, _ => []
     end)
  ∧ (∀ p, p ∈ py_range (shape (lon_traj scenario_store)).1 12 ↔
          (p < (shape (lon_traj scenario_store)).1)%nat ∧ (p `mod` 12 = 0)%nat)
  ∧ (∀ t, t ∈ py_range (shape (lon_traj scenario_store)).2 2 ↔
          (t < (shape (lon_traj scenario_store)).2)%nat ∧ (t `mod` 2 = 0)%nat)
  ∧ StronglySorted lt (py_range (shape (lon_traj scenario_store)).1 12)
  ∧ StronglySorted lt (py_range (shape (lon_traj scenario_store)).2 2).
Proof.
  apply (features_spec (λ d, if is_nan d then None else Some d) (λ x, x)
           12 2 style_dynamic {[0%nat]} scenario_store);
    [lia | lia | vm_compute; reflexivity].
Defined.

(** X17: on a rectangular store with at least one step, building the
    list of features raises an error exactly when, at some sampled
    particle and sampled step where the particle's longitude is not NaN,
    the day of the step cannot be read or has no time string. *)
Theorem features_error_iff {T : Type} (timestamp : float → option T)
    (round3 : float → float) (sp st : nat) (style : Style)
    (captured : gset nat) (ds : Dataset) :
  rectangular ds → (0 < (shape ds).2)%nat → (0 < sp)%nat → (0 < st)%nat →
  features timestamp round3 sp st style captured ds = None ↔
  ∃ p t x,
    (p < (shape (lon_traj ds)).1)%nat ∧ (p `mod` sp = 0)%nat
    ∧ (t < (shape (lon_traj ds)).2)%nat ∧ (t `mod` st = 0)%nat
    ∧ index2 (lon_traj ds) p t = Some x ∧ is_nan x = false
    ∧ (day_at ds t = None
       ∨ ∃ day, day_at ds t = Some day ∧ timestamp day = None).
Proof.
  intros Hrect Hpos Hsp Hst. rewrite features_None.
  assert (shape (lon_traj ds) = shape ds) as Hshape by apply shape_fmap.
  rewrite !Hshape.
  destruct (index2_is_Some (time_vals ds) 0) as [t00 Ht00].
  { unfold time_vals. by rewrite shape_fmap. }
  assert (∃ days, days_traj (time_vals ds) = Some days) as [days Hdays].
  { unfold days_traj. rewrite Ht00. by eexists. }
  assert (∀ t, day_of days t ≫= timestamp = None ↔
               day_at ds t = None
               ∨ ∃ day, day_at ds t = Some day ∧ timestamp day = None) as Hstamp.
  { intros t. rewrite (day_at_days _ _ _ Hdays), bind_None. done. }
  split.
  - intros [Hnone|(days' & p & t & Hdays' & Hp & Ht & Hnone)]; [congruence|].
    assert (days' = days) as -> by congruence.
    apply elem_of_py_range in Hp as [Hp Hp']; [|done].
    apply elem_of_py_range in Ht as [Ht Ht']; [|done].
    assert (p < length ds)%nat as Hplt by exact Hp.
    destruct (index2_rect_is_Some obs_lat ds p t Hrect Hplt Ht) as [y Hy].
    destruct (index2_rect_is_Some obs_lon ds p t Hrect Hplt Ht) as [x Hx].
    fold (lat_traj ds) in Hy. fold (lon_traj ds) in Hx.
    apply feature_at_None in Hnone
      as [Hnone|(x' & Hx' & Hnan & [Hnone|Hnone])];
      try congruence.
    exists p, t, x'. apply Hstamp in Hnone. done.
  - intros (p & t & x & Hp & Hp' & Ht & Ht' & Hx & Hnan & Hday).
    right. exists days, p, t. split; [done|].
    split; [by apply elem_of_py_range|]. split; [by apply elem_of_py_range|].
    apply feature_at_None. right. exists x. split; [done|]. split; [done|].
    left. by apply Hstamp.
Qed.

Lemma features_error_iff_witness :
  features (λ d, if is_nan d then None else Some d) (λ x, x) 10 2
    style_dashboard ∅ late_gap_store = None ↔
  ∃ p t x,
    (p < (shape (lon_traj late_gap_store)).1)%nat ∧ (p `mod` 10 = 0)%nat
    ∧ (t < (shape (lon_traj late_gap_store)).2)%nat ∧ (t `mod` 2 = 0)%nat
    ∧ index2 (lon_traj late_gap_store) p t = Some x ∧ is_nan x = false
    ∧ (day_at late_gap_store t = None
       ∨ ∃ day, day_at late_gap_store t = Some day
                ∧ (if is_nan day then None else Some day) = None).
Proof.
  apply (features_error_iff (λ d, if is_nan d then None else Some d) (λ x, x)
           10 2 style_dashboard ∅ late_gap_store);
    [repeat constructor | vm_compute; lia | lia | lia].
Defined.



(** ** Degenerate inputs *)

(** X13: when the first time of the first particle is missing, no day can
    be read, and the analysis raises at its first step. *)
Theorem missing_first_time_raises (box : Box) (ds : Dataset) :
  index2 (time_vals ds) 0 0 = Some NaT →
  (∀ t, day_at ds t = None) ∧ analyse box ds = None.
Proof.
  intros Hx. split; [intros t; by apply day_at_NaT_origin|].
  unfold analyse. apply (run_undefined_day box ds 0).
  - apply index2_Some_shape in Hx. unfold time_vals in Hx. unfold lon_traj.
    rewrite shape_fmap in Hx. rewrite shape_fmap. exact Hx.
  - by apply day_at_NaT_origin.
Qed.

Lemma missing_first_time_raises_witness :
  (∀ t, day_at [[mkObs NaT 0.5 0.5; mkObs ns_30d 0.5 0.5]] t = None)
  ∧ analyse unit_box [[mkObs NaT 0.5 0.5; mkObs ns_30d 0.5 0.5]] = None.
Proof.
  apply (missing_first_time_raises unit_box
           [[mkObs NaT 0.5 0.5; mkObs ns_30d 0.5 0.5]]); reflexivity.
Defined.

(** X19: a NaN position is never judged inside the box: the test is false
    as soon as a coordinate is NaN.  When the analysis returns, every
    particle of its final set has, at some step whose day is at or above
    30, a position with neither coordinate NaN that passes the test; and a
    particle whose position at step [t] is NaN is in the set after that
    step only if it was in it before. *)
Theorem nan_position_not_captured (box : Box) (ds : Dataset) :
  (∀ x y, is_nan x = true ∨ is_nan y = true → inside box x y = false)
  ∧ (∀ r p, analyse box ds = Some r → p ∈ captured_ids r →
            entered_after_maturation box ds p)
  ∧ (∀ t s s' p x y,
       run box ds t = Some s → run box ds (S t) = Some s' →
       index2 (lon_traj ds) p t = Some x →
       index2 (lat_traj ds) p t = Some y →
       is_nan x = true ∨ is_nan y = true →
       p ∈ captured_ids s' → p ∈ captured_ids s).
Proof.
  split; [apply inside_nan|]. split.
  - intros r p Hr. revert p.
    unfold analyse in Hr. apply run_Some in Hr as (days & Hdays & Hr).
    eapply (for_range_ind _
              (λ st, ∀ p, p ∈ captured_ids st → entered_after_maturation box ds p));
      [| |exact Hr].
    + intros t st fl Ht%elem_of_seq IH Hbody p.
      destruct fl as [st'|st']; simpl.
      * apply body_Next in Hbody as (day & Hday & _ & _ & _ & Hin).
        rewrite Hin. intros [Hp|[Hge (x & y & Hx & Hy & Hxy)]]; [by apply IH|].
        exists t, day, x, y.
        rewrite (day_at_days _ _ _ Hdays).
        repeat split; try done; [lia|..];
          apply not_true_is_false; intros Hnan;
          rewrite inside_nan in Hxy by auto; done.
      * apply body_Break in Hbody as [-> _]. apply IH.
    + by intros p ?%not_elem_of_empty.
  - intros t s s' p x y Hs Hs' Hx Hy Hnan Hp.
    destruct (run_step _ _ _ _ _ Hs Hs') as (days & _ & Hbody).
    apply body_Next in Hbody as (day & _ & _ & _ & _ & Hin).
    apply Hin in Hp as [Hp|[_ (x' & y' & Hx' & Hy' & Hxy)]]; [done|].
    assert (x' = x) as -> by congruence.
    assert (y' = y) as -> by congruence.
    by rewrite inside_nan in Hxy.
Qed.

Lemma true_cells_nil (m : list (list bool)) :
  (∀ a b, index2 m a b ≠ Some true) → true_cells 0 m = [].
Proof.
  intros Hnone. destruct (true_cells 0 m) as [|[a b] l] eqn:Hcells; [done|].
  exfalso. apply (Hnone a b).
  assert ((a, b) ∈ true_cells 0 m) as [_ H]%elem_of_true_cells
    by (rewrite Hcells; by left).
  by rewrite Nat.sub_0_r in H.
Qed.

(** X6: a sample without any land cell, or with land cells only, has an
    empty coastal band: there is no candidate, and whatever the number of
    particles asked for, the seeding hands three empty arrays to Parcels
    without an error. *)
Theorem no_coast_no_seeds (rnd : list nat) (NB : nat)
    (lons_array lats_array : list float) (depth_val : float)
    (uo_sample : list (list float)) :
  (∀ a b u, index2 uo_sample a b = Some u → land_cell u = false)
  ∨ (∀ a b u, index2 uo_sample a b = Some u → land_cell u = true) →
  (∀ a b, index2 (mask_coastal uo_sample) a b ≠ Some true)
  ∧ coastal_candidates lons_array uo_sample = Some ([], [])
  ∧ seeds rnd NB lons_array lats_array depth_val uo_sample
    = Some {| seed_lon := []; seed_lat := []; seed_depth := [] |}.
Proof.
  intros Hcase.
  assert (∀ a b, index2 (mask_coastal uo_sample) a b ≠ Some true) as Hnone.
  { intros a b Hc.
    destruct (mask_coastal_inside _ _ _ _ Hc) as (row & [(_ & _ & Hland)|?]);
      [|done].
    destruct (mask_coastal_defined _ _ _ _ Hland) as (d & Hd & Hc').
    rewrite Hc in Hc'. destruct d; [|done].
    apply binary_dilation_sound in Hd as (a' & b' & Hland' & _).
    unfold mask_land in Hland, Hland'. rewrite index2_fmap in Hland, Hland'.
    apply fmap_Some in Hland as (u & Hu & Hsea).
    apply fmap_Some in Hland' as (u' & Hu' & Hlnd).
    destruct Hcase as [Hsea_all|Hland_all].
    - rewrite (Hsea_all _ _ _ Hu') in Hlnd. done.
    - rewrite (Hland_all _ _ _ Hu) in Hsea. done. }
  split; [done|].
  assert (coastal_candidates lons_array uo_sample = Some ([], [])) as Hcand.
  { unfold coastal_candidates, where2. by rewrite (true_cells_nil _ Hnone). }
  split; [done|].
  unfold seeds, seed_cells. by rewrite Hcand.
Qed.

Lemma no_coast_no_seeds_witness :
  (∀ a b, index2 (mask_coastal [[0.1; 0.2]; [0.3; 0.1]]) a b ≠ Some true)
  ∧ coastal_candidates [4; 5] [[0.1; 0.2]; [0.3; 0.1]] = Some ([], [])
  ∧ seeds [3; 1]%nat 100 [4; 5] [42; 43] 1.5 [[0.1; 0.2]; [0.3; 0.1]]
    = Some {| seed_lon := []; seed_lat := []; seed_depth := [] |}.
Proof.
  apply (no_coast_no_seeds [3; 1]%nat 100 [4; 5] [42; 43] 1.5
           [[0.1; 0.2]; [0.3; 0.1]]).
  left. intros a b u.
  destruct a as [|[|a]]; destruct b as [|[|b]]; simpl;
    try discriminate; intros [= <-]; reflexivity.
Defined.
